(** * Device layout planning of the EdgeFS target (pkg/operator/edgefs/cluster/target/layout.go)

    A shallow embedding of [getIdDevLinkName], [GetRTDevices] and
    [GetRtlfsDevices], together with the parts of Go's [strings] and
    [path/filepath] packages they call, and the properties of the layout
    they compute. *)

From Stdlib Require Import ZArith Ascii DecimalString DecimalPos DecimalNat DecimalZ.
From stdpp Require Import base tactics option list numbers strings gmap.

Local Open Scope Z_scope.
Local Open Scope nat_scope.

(** ** Go runtime: a call either returns or panics *)

Inductive outcome (A : Type) : Type :=
  | Returned (a : A)
  | Panicked (reason : string).
Arguments Returned {A} a.
Arguments Panicked {A} reason.

Definition outcome_bind {A B} (f : A → outcome B) (m : outcome A) : outcome B :=
  match m with
  | Returned a => f a
  | Panicked r => Panicked r
  end.

#[global] Instance outcome_ret : MRet outcome := λ A a, Returned a.
#[global] Instance outcome_mbind : MBind outcome := λ A B f m, outcome_bind f m.

(** [for i := range xs { body }] threading the loop-carried state [s];
    the body sees the index and the element [xs[i]]. *)
Fixpoint for_range {A St : Type} (body : nat → A → St → outcome St)
    (i : nat) (xs : list A) (s : St) : outcome St :=
  match xs with
  | [] => Returned s
  | x :: xs' => s' ← body i x s; for_range body (S i) xs' s'
  end.

(** Indexing a slice, [xs[i]]: out of range is a run-time panic. *)
Definition index {A : Type} (xs : list A) (i : nat) : outcome A :=
  match xs !! i with
  | Some x => Returned x
  | None => Panicked "index out of range"
  end.

(** Reading through a pointer: nil is a run-time panic. *)
Definition deref {A : Type} (p : option A) : outcome A :=
  match p with
  | Some x => Returned x
  | None => Panicked "invalid memory address or nil pointer dereference"
  end.

(** ** Go strings are byte sequences *)

Fixpoint str_take (n : nat) (s : string) : string :=
  match n, s with
  | S n', String a s' => String a (str_take n' s')
  | _, _ => ""
  end.

Fixpoint str_drop (n : nat) (s : string) : string :=
  match n, s with
  | S n', String _ s' => str_drop n' s'
  | _, _ => s
  end.

(** The package [strings], for the non-empty separators and patterns the
    program passes. *)
Module strings.

Definition HasPrefix (s pre : string) : bool := String.prefix pre s.

(** [strings.Index]: position of the leftmost occurrence, [None] for -1. *)
Fixpoint Index (s substr : string) : option nat :=
  if HasPrefix s substr then Some 0
  else match s with
       | "" => None
       | String _ s' => S <$> Index s' substr
       end.

Definition Contains (s substr : string) : bool :=
  bool_decide (is_Some (Index s substr)).

(** [strings.Split]: cut at each leftmost occurrence of [sep] in turn; the
    number of cuts is bounded by the length of the string. *)
Fixpoint genSplit (n : nat) (s sep : string) : list string :=
  match n with
  | 0 => [s]
  | S n' =>
      match Index s sep with
      | None => [s]
      | Some m => str_take m s :: genSplit n' (str_drop (m + String.length sep) s) sep
      end
  end.

Definition Split (s sep : string) : list string :=
  genSplit (String.length s) s sep.

(** [strings.Replace(s, old, new, n)] for [n >= 0]: the first [n]
    occurrences. *)
Fixpoint Replace (s old new : string) (n : nat) : string :=
  match n with
  | 0 => s
  | S n' =>
      match Index s old with
      | None => s
      | Some m =>
          str_take m s +:+ new +:+
            Replace (str_drop (m + String.length old) s) old new n'
      end
  end.

End strings.

(** The package [path/filepath] on a system whose separator is the slash and
    whose volume names are empty. *)
Module filepath.

Definition Separator : ascii := "/"%char.

Definition IsPathSeparator (c : ascii) : bool := bool_decide (c = Separator).

(** The loop that strips trailing separators. *)
Fixpoint stripTrailing (path : string) : string :=
  match path with
  | "" => ""
  | String a rest =>
      match stripTrailing rest with
      | "" => if IsPathSeparator a then "" else String a ""
      | t => String a t
      end
  end.

Fixpoint hasSeparator (path : string) : bool :=
  match path with
  | "" => false
  | String a rest => IsPathSeparator a || hasSeparator rest
  end.

(** The scan from the right for the last separator, and the slice after it. *)
Fixpoint lastElement (path : string) : string :=
  match path with
  | "" => ""
  | String a rest =>
      if hasSeparator rest then lastElement rest
      else if IsPathSeparator a then rest
      else path
  end.

Definition Base (path : string) : string :=
  if bool_decide (path = "") then "."
  else
    let path := stripTrailing path in
    let path := lastElement path in
    if bool_decide (path = "") then String Separator ""
    else path.

End filepath.

(** ** Name normalization *)

Fixpoint getIdDevLinkName_loop (dlsArr : list string) : string :=
  match dlsArr with
  | [] => ""
  | x :: rest =>
      let s := strings.Replace x "/dev/disk/by-id/" "" 1 in
      if strings.Contains s "/" || strings.Contains s "wwn-"
      then getIdDevLinkName_loop rest
      else s
  end.

Definition getIdDevLinkName (dls : string) : string :=
  let dlsArr := strings.Split dls " " in
  getIdDevLinkName_loop dlsArr.

(** ** Data model

    The record types are declared outside this file's source
    ([sys.LocalDisk], [config.StoreConfig], [edgefsv1alpha1.RTDevice],
    [edgefsv1alpha1.RtlfsDevice], [rookalpha.Directory]); each record below
    has the fields [layout.go] reads or writes. *)

Module Partition.
(** Modelled from the spec: [sys.Partition] is declared elsewhere; the
    layout only counts the partitions of a disk. *)
Record t := mk { Name : string }.
End Partition.

Module LocalDisk.
Record t := mk {
  Name : string;
  DevLinks : string;
  Rotational : bool;
  Empty : bool;
  Partitions : list Partition.t;
}.
End LocalDisk.

Module StoreConfig.
(** Modelled from the spec: the field types of [config.StoreConfig]
    (section 3: integers for the page size, the partition-level override
    and the capacity cap, booleans for the flags, a string for the mask). *)
Record t := mk {
  UseAllSSD : bool;
  UseMetadataOffload : bool;
  UseBCache : bool;
  UseBCacheWB : bool;
  LmdbPageSize : Z;
  RtVerifyChid : bool;
  Sync : bool;
  RtPLevelOverride : Z;
  MaxSize : Z;
  UseMetadataMask : string;
}.
End StoreConfig.

Module RTDevice.
Record t := mk {
  Name : string;
  Device : string;
  Psize : Z;
  VerifyChid : bool;
  BcacheWritearound : Z;
  Journal : string;
  Metadata : string;
  Bcache : Z;
  Sync : bool;
  PlevelOverride : Z;
}.

Definition set_Bcache (v : Z) (r : t) : t :=
  mk (Name r) (Device r) (Psize r) (VerifyChid r) (BcacheWritearound r)
     (Journal r) (Metadata r) v (Sync r) (PlevelOverride r).
Definition set_BcacheWritearound (v : Z) (r : t) : t :=
  mk (Name r) (Device r) (Psize r) (VerifyChid r) v
     (Journal r) (Metadata r) (Bcache r) (Sync r) (PlevelOverride r).
Definition set_PlevelOverride (v : Z) (r : t) : t :=
  mk (Name r) (Device r) (Psize r) (VerifyChid r) (BcacheWritearound r)
     (Journal r) (Metadata r) (Bcache r) (Sync r) v.
End RTDevice.

Module Directory.
Record t := mk { Path : string }.
End Directory.

Module RtlfsDevice.
Record t := mk {
  Name : string;
  Path : string;
  CheckMountpoint : Z;
  Psize : Z;
  VerifyChid : bool;
  Sync : bool;
  Maxsize : Z;
  PlevelOverride : Z;
}.

Definition set_Maxsize (v : Z) (r : t) : t :=
  mk (Name r) (Path r) (CheckMountpoint r) (Psize r) (VerifyChid r) (Sync r)
     v (PlevelOverride r).
Definition set_PlevelOverride (v : Z) (r : t) : t :=
  mk (Name r) (Path r) (CheckMountpoint r) (Psize r) (VerifyChid r) (Sync r)
     (Maxsize r) v.
End RtlfsDevice.

(** An [error] value made by [fmt.Errorf] carries its message. *)
Inductive error : Type := Errorf (msg : string).

(** [%d] of a length. *)
Definition itoa (n : nat) : string := NilZero.string_of_uint (Nat.to_uint n).

Definition newline : string := String "010"%char "".


(** ** The headless service name

    The package constant [appName] is declared in another file of the
    package and is taken as a parameter. *)


(** What a call of [GetRTDevices] hands back: the two results and the
    lines it printed on standard output. *)
Module RTResult.
Record t := mk {
  rtDevices : list RTDevice.t;
  err : option error;
  stdout : list string;
}.
End RTResult.

(** ** The classifier loop of [GetRTDevices] *)

Module Buckets.
Record t := mk {
  ssds : list LocalDisk.t;
  hdds : list LocalDisk.t;
  devices : list LocalDisk.t;
}.
End Buckets.

Definition classify_step (b : Buckets.t) (d : LocalDisk.t) : Buckets.t :=
  if negb (LocalDisk.Empty d) || (0 <? length (LocalDisk.Partitions d))
  then b
  else
    let b :=
      if LocalDisk.Rotational d
      then Buckets.mk (Buckets.ssds b) (Buckets.hdds b ++ [d]) (Buckets.devices b)
      else Buckets.mk (Buckets.ssds b ++ [d]) (Buckets.hdds b) (Buckets.devices b) in
    Buckets.mk (Buckets.ssds b) (Buckets.hdds b) (Buckets.devices b ++ [d]).

Definition classify (nodeDisks : list LocalDisk.t) : Buckets.t :=
  foldl classify_step (Buckets.mk [] [] []) nodeDisks.

(** ** The three policies *)

(** The record built in the all-solid-state and all-rotational loops. *)
Definition plain_rtdev (storeConfig : StoreConfig.t) (d : LocalDisk.t) : RTDevice.t :=
  let rtdev :=
    RTDevice.mk
      (getIdDevLinkName (LocalDisk.DevLinks d))
      ("/dev/" +:+ LocalDisk.Name d)
      (StoreConfig.LmdbPageSize storeConfig)
      (StoreConfig.RtVerifyChid storeConfig)
      0%Z "" "" 0%Z
      (StoreConfig.Sync storeConfig)
      0%Z in
  if bool_decide (StoreConfig.RtPLevelOverride storeConfig ≠ 0%Z)
  then RTDevice.set_PlevelOverride (StoreConfig.RtPLevelOverride storeConfig) rtdev
  else rtdev.

Definition allSSD_step (storeConfig : StoreConfig.t)
    (rtDevices : list RTDevice.t) (d : LocalDisk.t) : list RTDevice.t :=
  if LocalDisk.Rotational d then rtDevices
  else rtDevices ++ [plain_rtdev storeConfig d].

Definition allHDD_step (storeConfig : StoreConfig.t)
    (rtDevices : list RTDevice.t) (d : LocalDisk.t) : list RTDevice.t :=
  if negb (LocalDisk.Rotational d) then rtDevices
  else rtDevices ++ [plain_rtdev storeConfig d].

(** The loop [for i := len(ssds); i > 0; i--] that cuts [hdds] into chunks. *)
Fixpoint divide_loop (i : nat) (hdds_divided : list (list LocalDisk.t))
    (hdds : list LocalDisk.t) : list (list LocalDisk.t) :=
  match i with
  | 0 => hdds_divided
  | S i' =>
      let chunkSize := length hdds / i in
      let mod_ := length hdds mod i in
      let chunkSize := if 0 <? mod_ then chunkSize + 1 else chunkSize in
      let chunkSize := if length hdds <? chunkSize then length hdds else chunkSize in
      divide_loop i' (hdds_divided ++ [take chunkSize hdds]) (drop chunkSize hdds)
  end.

(** The literal [map[bool]int{true: 0, false: 1}]. *)
Definition writearound_of_wb : gmap bool Z := <[true := 0%Z]> (<[false := 1%Z]> ∅).

(** Reading a Go map: a missing key gives the zero value. *)
Definition map_get (m : gmap bool Z) (k : bool) : Z := default 0%Z (m !! k).

(** The record built in the hybrid loop for rotational disk [d] served by
    solid-state disk [ssd]. *)
Definition hybrid_rtdev (storeConfig : StoreConfig.t) (d ssd : LocalDisk.t) : RTDevice.t :=
  let rtdev :=
    RTDevice.mk
      (getIdDevLinkName (LocalDisk.DevLinks d))
      ("/dev/" +:+ LocalDisk.Name d)
      (StoreConfig.LmdbPageSize storeConfig)
      (StoreConfig.RtVerifyChid storeConfig)
      (map_get writearound_of_wb (StoreConfig.UseBCacheWB storeConfig))
      (getIdDevLinkName (LocalDisk.DevLinks ssd))
      (getIdDevLinkName (LocalDisk.DevLinks ssd) +:+ "," +:+
         StoreConfig.UseMetadataMask storeConfig)
      0%Z
      (StoreConfig.Sync storeConfig)
      0%Z in
  let rtdev :=
    if StoreConfig.UseBCache storeConfig then
      let rtdev := RTDevice.set_Bcache 1%Z rtdev in
      if StoreConfig.UseBCacheWB storeConfig
      then RTDevice.set_BcacheWritearound 0%Z rtdev
      else rtdev
    else rtdev in
  if bool_decide (StoreConfig.RtPLevelOverride storeConfig ≠ 0%Z)
  then RTDevice.set_PlevelOverride (StoreConfig.RtPLevelOverride storeConfig) rtdev
  else rtdev.

(** Body of [for j := range hdds_divided[i]]; it reads [ssds[i]]. *)
Definition hybrid_inner (storeConfig : StoreConfig.t) (ssds : list LocalDisk.t)
    (i : nat) (j : nat) (d : LocalDisk.t) (rtDevices : list RTDevice.t)
    : outcome (list RTDevice.t) :=
  ssd ← index ssds i;
  mret (rtDevices ++ [hybrid_rtdev storeConfig d ssd]).

(** Body of [for i := range hdds_divided]. *)
Definition hybrid_outer (storeConfig : StoreConfig.t) (ssds : list LocalDisk.t)
    (i : nat) (group : list LocalDisk.t) (rtDevices : list RTDevice.t)
    : outcome (list RTDevice.t) :=
  for_range (hybrid_inner storeConfig ssds i) 0 group rtDevices.

Definition warning_ignored : string :=
  "Warning: useMetadataOffload parameter is ignored due to use useAllSSD=true".

Definition GetRTDevices (nodeDisks : list LocalDisk.t)
    (storeConfig : option StoreConfig.t) : outcome RTResult.t :=
  let rtDevices : list RTDevice.t := [] in
  match storeConfig with
  | None =>
      mret (RTResult.mk rtDevices (Some (Errorf "no pointer to StoreConfig provided")) [])
  | Some storeConfig =>
      if length nodeDisks =? 0 then mret (RTResult.mk rtDevices None [])
      else
        let b := classify nodeDisks in
        let ssds := Buckets.ssds b in
        let hdds := Buckets.hdds b in
        let devices := Buckets.devices b in
        if StoreConfig.UseAllSSD storeConfig then
          if length ssds =? 0 then
            mret (RTResult.mk rtDevices (Some (Errorf "No SSD/NVMe media found")) [])
          else
            let out :=
              if StoreConfig.UseMetadataOffload storeConfig
              then [warning_ignored] else [] in
            let rtDevices := foldl (allSSD_step storeConfig) rtDevices devices in
            mret (RTResult.mk rtDevices None out)
        else if length hdds =? 0 then
          mret (RTResult.mk rtDevices (Some (Errorf "No HDD media found")) [])
        else if negb (StoreConfig.UseMetadataOffload storeConfig) then
          let rtDevices := foldl (allHDD_step storeConfig) rtDevices devices in
          mret (RTResult.mk rtDevices None [])
        else if (length hdds <? length ssds) || (length ssds =? 0) then
          mret (RTResult.mk rtDevices
                  (Some (Errorf ("Confusing use of useMetadataOffload parameter HDDs("
                                 +:+ itoa (length hdds) +:+ ") < SSDs("
                                 +:+ itoa (length ssds) +:+ ")" +:+ newline)))
                  [])
        else
          let hdds_divided := divide_loop (length ssds) [] hdds in
          rtDevices ← for_range (hybrid_outer storeConfig ssds) 0 hdds_divided rtDevices;
          mret (RTResult.mk rtDevices None [])
  end.

(** ** The directory planner *)

Definition rtlfs_body (storeConfig : option StoreConfig.t)
    (_ : nat) (dir : Directory.t) (rtlfsDevices : list RtlfsDevice.t)
    : outcome (list RtlfsDevice.t) :=
  let name := filepath.Base (Directory.Path dir) in
  cfg ← deref storeConfig;
  let rtlfsDevice :=
    RtlfsDevice.mk name (Directory.Path dir) 0%Z
      (StoreConfig.LmdbPageSize cfg)
      (StoreConfig.RtVerifyChid cfg)
      (StoreConfig.Sync cfg)
      0%Z 0%Z in
  let rtlfsDevice :=
    if bool_decide (StoreConfig.MaxSize cfg ≠ 0%Z)
    then RtlfsDevice.set_Maxsize (StoreConfig.MaxSize cfg) rtlfsDevice
    else rtlfsDevice in
  let rtlfsDevice :=
    if bool_decide (StoreConfig.RtPLevelOverride cfg ≠ 0%Z)
    then RtlfsDevice.set_PlevelOverride (StoreConfig.RtPLevelOverride cfg) rtlfsDevice
    else rtlfsDevice in
  mret (rtlfsDevices ++ [rtlfsDevice]).

Definition GetRtlfsDevices (directories : list Directory.t)
    (storeConfig : option StoreConfig.t) : outcome (list RtlfsDevice.t) :=
  let rtlfsDevices : list RtlfsDevice.t := [] in
  for_range (rtlfs_body storeConfig) 0 directories rtlfsDevices.

(** * Notions used to state the properties *)

(** ** Eligibility

    A disk is left alone unless it is empty and has no partition: the
    negation of the test that makes the classifier loop skip a disk. *)

Definition eligible (d : LocalDisk.t) : bool :=
  LocalDisk.Empty d && (length (LocalDisk.Partitions d) =? 0).

Definition eligible_ssd (d : LocalDisk.t) : bool :=
  eligible d && negb (LocalDisk.Rotational d).

Definition eligible_hdd (d : LocalDisk.t) : bool :=
  eligible d && LocalDisk.Rotational d.

(** ** The balanced partition *)

(** The chunk size one iteration of the dividing loop computes from the
    number of disks left and the number of groups left. *)
Definition chunk_size (len i : nat) : nat :=
  let c := len / i in
  let c := if 0 <? len mod i then c + 1 else c in
  if len <? c then len else c.

(** ** The hybrid output, group by group *)

(** The assignments of the groups from index [i] on, group by group. *)
Fixpoint hybrid_flat (cfg : StoreConfig.t) (ssds : list LocalDisk.t) (i : nat)
    (groups : list (list LocalDisk.t)) : list RTDevice.t :=
  match groups with
  | [] => []
  | g :: gs =>
      match ssds !! i with
      | Some ssd => (λ d, hybrid_rtdev cfg d ssd) <$> g
      | None => []
      end ++ hybrid_flat cfg ssds (S i) gs
  end.

(** ** The planner after classification *)

Definition empty_result (e : option error) : RTResult.t := RTResult.mk [] e [].

Definition layout (cfg : StoreConfig.t) (ssds hdds : list LocalDisk.t) : RTResult.t :=
  if StoreConfig.UseAllSSD cfg then
    if length ssds =? 0 then empty_result (Some (Errorf "No SSD/NVMe media found"))
    else RTResult.mk (plain_rtdev cfg <$> ssds) None
           (if StoreConfig.UseMetadataOffload cfg then [warning_ignored] else [])
  else if length hdds =? 0 then empty_result (Some (Errorf "No HDD media found"))
  else if negb (StoreConfig.UseMetadataOffload cfg) then
    RTResult.mk (plain_rtdev cfg <$> hdds) None []
  else if (length hdds <? length ssds) || (length ssds =? 0) then
    empty_result
      (Some (Errorf ("Confusing use of useMetadataOffload parameter HDDs("
                     +:+ itoa (length hdds) +:+ ") < SSDs("
                     +:+ itoa (length ssds) +:+ ")" +:+ newline)))
  else
    RTResult.mk (hybrid_flat cfg ssds 0 (divide_loop (length ssds) [] hdds)) None [].

(** ** The directory planner *)

(** The record the loop of [GetRtlfsDevices] appends for one directory. *)
Definition rtlfs_device (cfg : StoreConfig.t) (dir : Directory.t) : RtlfsDevice.t :=
  let dev :=
    RtlfsDevice.mk (filepath.Base (Directory.Path dir)) (Directory.Path dir) 0%Z
      (StoreConfig.LmdbPageSize cfg) (StoreConfig.RtVerifyChid cfg)
      (StoreConfig.Sync cfg) 0%Z 0%Z in
  let dev :=
    if bool_decide (StoreConfig.MaxSize cfg ≠ 0%Z)
    then RtlfsDevice.set_Maxsize (StoreConfig.MaxSize cfg) dev else dev in
  if bool_decide (StoreConfig.RtPLevelOverride cfg ≠ 0%Z)
  then RtlfsDevice.set_PlevelOverride (StoreConfig.RtPLevelOverride cfg) dev else dev.

(** A run of path separators, as may trail a directory path. *)
Fixpoint onlySeparators (s : string) : bool :=
  match s with
  | "" => true
  | String a rest => filepath.IsPathSeparator a && onlySeparators rest
  end.

(** ** Name normalization *)

(** [sub] occurs in [s]. *)
Definition occurs_in (sub s : string) : Prop := ∃ a b, s = a +:+ sub +:+ b.

(** The candidates the loop of [getIdDevLinkName] looks at. *)
Definition candidates (dls : string) : list string :=
  (λ x, strings.Replace x "/dev/disk/by-id/" "" 1) <$> strings.Split dls " ".

(** What the loop skips. *)
Definition skipped (c : string) : Prop := occurs_in "/" c ∨ occurs_in "wwn-" c.

(** Follows the words of the claim: the first candidate that has no path
    separator and does not start with [wwn-], or the empty string. *)
Definition first_without_wwn_prefix (dls : string) : string :=
  default ""
    (List.find (λ c, negb (strings.Contains c "/") && negb (strings.HasPrefix c "wwn-"))
       (candidates dls)).

(** The byte [c] is among those of [s]. *)
Fixpoint has_byte (c : ascii) (s : string) : bool :=
  match s with
  | "" => false
  | String a rest => bool_decide (a = c) || has_byte c rest
  end.

(** ** Sample inputs *)

Definition disk (name links : string) (rot : bool) : LocalDisk.t :=
  LocalDisk.mk name links rot true [].

Definition sample_config (allssd offload bc wb : bool) : StoreConfig.t :=
  StoreConfig.mk allssd offload bc wb 4096%Z true false 0%Z 0%Z "0xff".

Definition sample_disks : list LocalDisk.t :=
  [ disk "sda" "/dev/disk/by-id/wwn-0x5000a /dev/disk/by-id/ata-A" true;
    disk "nvme0n1" "/dev/disk/by-id/nvme-N0" false;
    LocalDisk.mk "sdz" "/dev/disk/by-id/ata-Z" true false [];
    disk "sdb" "/dev/disk/by-id/ata-B" true;
    LocalDisk.mk "sdy" "/dev/disk/by-id/ata-Y" true true [Partition.mk "sdy1"];
    disk "sdc" "/dev/disk/by-id/ata-C" true;
    disk "nvme1n1" "/dev/disk/by-id/nvme-N1" false ].

Definition hybrid_config : StoreConfig.t := sample_config false true true false.

Definition writeback_only_config : StoreConfig.t := sample_config false true false true.

(** * Properties *)

(** ** The classifier *)

Lemma classify_step_eligible b d :
  classify_step b d =
  Buckets.mk (Buckets.ssds b ++ List.filter eligible_ssd [d])
             (Buckets.hdds b ++ List.filter eligible_hdd [d])
             (Buckets.devices b ++ List.filter eligible [d]).
Proof.
  unfold classify_step, eligible_ssd, eligible_hdd, eligible. simpl.
  destruct b as [s h v], d as [n l rot e ps]; simpl.
  destruct e; simpl; [|by rewrite !app_nil_r].
  destruct ps as [|p ps]; simpl; [|by rewrite !app_nil_r].
  destruct rot; simpl; by rewrite !app_nil_r.
Qed.

Lemma classify_from b nodeDisks :
  foldl classify_step b nodeDisks =
  Buckets.mk (Buckets.ssds b ++ List.filter eligible_ssd nodeDisks)
             (Buckets.hdds b ++ List.filter eligible_hdd nodeDisks)
             (Buckets.devices b ++ List.filter eligible nodeDisks).
Proof.
  revert b. induction nodeDisks as [|d l IH]; intros b.
  - simpl. destruct b; simpl. by rewrite !app_nil_r.
  - change (d :: l) with ([d] ++ l). rewrite foldl_app. simpl foldl at 2.
    rewrite IH, classify_step_eligible. simpl Buckets.ssds.
    simpl Buckets.hdds. simpl Buckets.devices.
    rewrite !List.filter_app, !app_assoc. done.
Qed.

Lemma classify_filter nodeDisks :
  classify nodeDisks =
  Buckets.mk (List.filter eligible_ssd nodeDisks)
             (List.filter eligible_hdd nodeDisks)
             (List.filter eligible nodeDisks).
Proof. unfold classify. by rewrite classify_from. Qed.

Lemma filter_filter {A} (f g : A → bool) l :
  List.filter f (List.filter g l) = List.filter (λ x, g x && f x) l.
Proof.
  induction l as [|x l IH]; simpl; [done|].
  destruct (g x); simpl; [|done]. destruct (f x); by rewrite IH.
Qed.

(** ** The plain policies *)

Lemma allSSD_fold cfg acc devices :
  foldl (allSSD_step cfg) acc devices =
  acc ++ (plain_rtdev cfg <$> List.filter (λ d, negb (LocalDisk.Rotational d)) devices).
Proof.
  revert acc. induction devices as [|d l IH]; intros acc; simpl.
  - by rewrite app_nil_r.
  - rewrite IH. unfold allSSD_step.
    destruct (LocalDisk.Rotational d); simpl; [done|].
    by rewrite <- app_assoc.
Qed.

Lemma allHDD_fold cfg acc devices :
  foldl (allHDD_step cfg) acc devices =
  acc ++ (plain_rtdev cfg <$> List.filter LocalDisk.Rotational devices).
Proof.
  revert acc. induction devices as [|d l IH]; intros acc; simpl.
  - by rewrite app_nil_r.
  - rewrite IH. unfold allHDD_step.
    destruct (LocalDisk.Rotational d); simpl; [|done].
    by rewrite <- app_assoc.
Qed.

(** ** The balanced partition *)

Lemma divide_loop_acc i acc hdds :
  divide_loop i acc hdds = acc ++ divide_loop i [] hdds.
Proof.
  revert acc hdds. induction i as [|i IH]; intros acc hdds; simpl.
  - by rewrite app_nil_r.
  - rewrite IH. rewrite (IH [_]). by rewrite <- app_assoc.
Qed.

Lemma divide_loop_S i hdds :
  divide_loop (S i) [] hdds =
  take (chunk_size (length hdds) (S i)) hdds
    :: divide_loop i [] (drop (chunk_size (length hdds) (S i)) hdds).
Proof. simpl. by rewrite divide_loop_acc. Qed.

Section chunk_arith.
Variables (len i : nat).
Hypothesis Hi : 0 < i.

Lemma chunk_size_cases :
  (len mod i = 0 ∧ chunk_size len i = len / i) ∨
  (0 < len mod i ∧ chunk_size len i = len / i + 1).
Proof.
  unfold chunk_size.
  pose proof (Nat.div_mod_eq len i) as Hdm.
  pose proof (Nat.mod_upper_bound len i ltac:(lia)) as Hm.
  destruct (Nat.ltb_spec 0 (len mod i)) as [Hpos|Hzero].
  - right. split; [done|].
    destruct (Nat.ltb_spec len (len / i + 1)); [nia|done].
  - left. split; [lia|].
    destruct (Nat.ltb_spec len (len / i)); [nia|done].
Qed.

Lemma chunk_size_le : chunk_size len i ≤ len.
Proof.
  unfold chunk_size.
  destruct (0 <? len mod i);
    match goal with |- context [?a <? ?b] => destruct (Nat.ltb_spec a b) end; lia.
Qed.

Lemma chunk_size_lower : len / i ≤ chunk_size len i.
Proof. destruct chunk_size_cases as [[_ ->]|[_ ->]]; lia. Qed.

Lemma chunk_size_upper : chunk_size len i ≤ len / i + 1.
Proof. destruct chunk_size_cases as [[_ ->]|[_ ->]]; lia. Qed.
End chunk_arith.

Lemma chunk_size_one len : chunk_size len 1 = len.
Proof.
  destruct (chunk_size_cases len 1 ltac:(lia)) as [[_ ->]|[H _]].
  - apply Nat.div_1_r.
  - rewrite Nat.mod_1_r in H. lia.
Qed.

(** After a chunk is taken, the quotient for the groups that remain is the
    same and the next chunk is no larger. *)
Lemma chunk_size_next len i :
  0 < i →
  let c := chunk_size len (S i) in
  (len - c) / i = len / S i ∧ chunk_size (len - c) i ≤ c.
Proof.
  intros Hi c.
  pose proof (Nat.div_mod_eq len (S i)) as Hdm.
  pose proof (Nat.mod_upper_bound len (S i) ltac:(lia)) as Hm.
  set (q := len / S i) in *. set (m := len mod S i) in *.
  destruct (chunk_size_cases len (S i) ltac:(lia)) as [[Hz Hc]|[Hp Hc]];
    fold c q m in Hz, Hc || fold c q m in Hp, Hc.
  - assert (Hrest : len - c = i * q + 0) by nia.
    assert (Hq : (len - c) / i = q).
    { symmetry. apply (Nat.div_unique _ _ _ 0); [lia|done]. }
    assert (Hmod : (len - c) mod i = 0).
    { symmetry. apply (Nat.mod_unique _ _ q); [lia|done]. }
    split; [done|].
    destruct (chunk_size_cases (len - c) i Hi) as [[_ ->]|[? _]]; lia.
  - assert (Hrest : len - c = i * q + (m - 1)) by nia.
    assert (Hq : (len - c) / i = q).
    { symmetry. apply (Nat.div_unique _ _ _ (m - 1)); [lia|done]. }
    split; [done|].
    pose proof (chunk_size_upper (len - c) i Hi). lia.
Qed.

Lemma divide_loop_length i hdds : length (divide_loop i [] hdds) = i.
Proof.
  revert hdds. induction i as [|i IH]; intros hdds; [done|].
  rewrite divide_loop_S. simpl. by rewrite IH.
Qed.

(** The groups are consecutive slices that use up the whole pool. *)
Lemma divide_loop_concat i hdds :
  0 < i → concat (divide_loop i [] hdds) = hdds.
Proof.
  revert hdds. induction i as [|i IH]; intros hdds Hi; [lia|].
  rewrite divide_loop_S. simpl.
  destruct i as [|i].
  - simpl. rewrite chunk_size_one, app_nil_r. apply firstn_all.
  - rewrite IH by lia. apply take_drop.
Qed.

(** Every group holds between the quotient and the first chunk size. *)
Lemma divide_loop_bounds i hdds g :
  0 < i → g ∈ divide_loop i [] hdds →
  length hdds / i ≤ length g ≤ chunk_size (length hdds) i.
Proof.
  revert hdds. induction i as [|i IH]; intros hdds Hi Hg; [lia|].
  rewrite divide_loop_S in Hg.
  pose proof (chunk_size_le (length hdds) (S i) Hi) as Hle.
  pose proof (chunk_size_lower (length hdds) (S i) Hi) as Hlo.
  apply elem_of_cons in Hg as [->|Hg].
  - rewrite length_take. lia.
  - destruct i as [|i]; [simpl in Hg; by apply elem_of_nil in Hg|].
    apply IH in Hg; [|lia].
    rewrite length_drop in Hg.
    destruct (chunk_size_next (length hdds) (S i) ltac:(lia)) as [Hq Hc].
    lia.
Qed.

Lemma divide_loop_nonincreasing i hdds a b g1 g2 :
  a ≤ b →
  divide_loop i [] hdds !! a = Some g1 →
  divide_loop i [] hdds !! b = Some g2 →
  length g2 ≤ length g1.
Proof.
  revert hdds a b. induction i as [|i IH]; intros hdds a b Hab H1 H2; [done|].
  rewrite divide_loop_S in H1, H2.
  pose proof (chunk_size_le (length hdds) (S i) ltac:(lia)) as Hle.
  destruct a as [|a].
  - simpl in H1. injection H1 as <-.
    destruct b as [|b].
    + simpl in H2. by injection H2 as <-.
    + simpl in H2. apply list_elem_of_lookup_2 in H2.
      destruct i as [|i]; [simpl in H2; by apply elem_of_nil in H2|].
      apply divide_loop_bounds in H2 as [_ H2]; [|lia].
      rewrite length_drop in H2. rewrite length_take.
      destruct (chunk_size_next (length hdds) (S i) ltac:(lia)) as [_ Hc].
      lia.
  - destruct b as [|b]; [lia|]. simpl in H1, H2.
    eapply IH; [|exact H1|exact H2]. lia.
Qed.

Lemma divide_loop_balanced i hdds g1 g2 :
  0 < i →
  g1 ∈ divide_loop i [] hdds → g2 ∈ divide_loop i [] hdds →
  length g1 ≤ length g2 + 1.
Proof.
  intros Hi H1 H2.
  apply divide_loop_bounds in H1; [|done].
  apply divide_loop_bounds in H2; [|done].
  pose proof (chunk_size_upper (length hdds) i Hi). lia.
Qed.

Lemma sum_list_length_concat {A} (ls : list (list A)) :
  sum_list (length <$> ls) = length (concat ls).
Proof.
  induction ls as [|l ls IH]; csimpl; [done|]. rewrite length_app. lia.
Qed.

(** ** The hybrid loops *)

Lemma hybrid_inner_loop cfg ssds i ssd j g acc :
  ssds !! i = Some ssd →
  for_range (hybrid_inner cfg ssds i) j g acc =
  Returned (acc ++ ((λ d, hybrid_rtdev cfg d ssd) <$> g)).
Proof.
  intros Hssd. revert j acc. induction g as [|d g IH]; intros j acc.
  - simpl. by rewrite app_nil_r.
  - cbn [for_range].
    assert (hybrid_inner cfg ssds i j d acc =
            Returned (acc ++ [hybrid_rtdev cfg d ssd])) as ->.
    { unfold hybrid_inner, index. by rewrite Hssd. }
    cbn [mbind outcome_mbind outcome_bind].
    rewrite IH. by rewrite <- app_assoc.
Qed.

Lemma hybrid_outer_loop cfg ssds i groups acc :
  i + length groups ≤ length ssds →
  for_range (hybrid_outer cfg ssds) i groups acc =
  Returned (acc ++ hybrid_flat cfg ssds i groups).
Proof.
  revert i acc. induction groups as [|g gs IH]; intros i acc Hlen.
  - simpl. by rewrite app_nil_r.
  - simpl in Hlen.
    destruct (lookup_lt_is_Some_2 ssds i ltac:(lia)) as [ssd Hssd].
    cbn [for_range hybrid_flat].
    change (hybrid_outer cfg ssds i g acc)
      with (for_range (hybrid_inner cfg ssds i) 0 g acc).
    rewrite (hybrid_inner_loop _ _ _ ssd) by done.
    cbn [mbind outcome_mbind outcome_bind].
    rewrite IH by lia. rewrite Hssd. by rewrite <- app_assoc.
Qed.

Lemma hybrid_flat_length cfg ssds i groups :
  i + length groups ≤ length ssds →
  length (hybrid_flat cfg ssds i groups) = length (concat groups).
Proof.
  revert i. induction groups as [|g gs IH]; intros i Hlen; simpl; [done|].
  simpl in Hlen.
  destruct (lookup_lt_is_Some_2 ssds i ltac:(lia)) as [ssd ->].
  rewrite !length_app, length_fmap, IH by lia. done.
Qed.

(** The assignment of member [j] of group [i] sits after the members of
    the groups before it. *)
Lemma hybrid_flat_lookup cfg ssds i0 groups i g j d :
  i0 + length groups ≤ length ssds →
  groups !! i = Some g → g !! j = Some d →
  ∃ ssd, ssds !! (i0 + i) = Some ssd ∧
    hybrid_flat cfg ssds i0 groups !! (sum_list (length <$> take i groups) + j)
    = Some (hybrid_rtdev cfg d ssd).
Proof.
  revert i0 i. induction groups as [|g0 gs IH]; intros i0 i Hlen Hg Hd; [done|].
  simpl in Hlen.
  destruct (lookup_lt_is_Some_2 ssds i0 ltac:(lia)) as [ssd0 Hssd0].
  destruct i as [|i]; simpl in Hg.
  - injection Hg as ->. exists ssd0. rewrite Nat.add_0_r. split; [done|].
    simpl. rewrite Hssd0. rewrite lookup_app_l.
    + rewrite list_lookup_fmap, Hd. done.
    + rewrite length_fmap. by eapply lookup_lt_Some.
  - destruct (IH (S i0) i ltac:(lia) Hg Hd) as (ssd & Hssd & Hlook).
    exists ssd. replace (i0 + S i) with (S i0 + i) by lia. split; [done|].
    csimpl. rewrite Hssd0. rewrite lookup_app_r; rewrite length_fmap; [|lia].
    rewrite <- Hlook. f_equal. lia.
Qed.

(** ** The planner after classification *)

(** [GetRTDevices] with a configuration never panics: past the empty-list
    guard it is [layout] on the two filtered buckets. *)
Lemma GetRTDevices_layout nodeDisks cfg :
  GetRTDevices nodeDisks (Some cfg) =
  Returned
    (if length nodeDisks =? 0 then empty_result None
     else layout cfg (List.filter eligible_ssd nodeDisks)
                     (List.filter eligible_hdd nodeDisks)).
Proof.
  unfold GetRTDevices, layout, empty_result.
  destruct (length nodeDisks =? 0); [done|].
  rewrite classify_filter. cbn [Buckets.ssds Buckets.hdds Buckets.devices].
  set (ssds := List.filter eligible_ssd nodeDisks).
  set (hdds := List.filter eligible_hdd nodeDisks).
  destruct (StoreConfig.UseAllSSD cfg).
  { destruct (length ssds =? 0); [done|].
    rewrite allSSD_fold, filter_filter. done. }
  destruct (length hdds =? 0); [done|].
  destruct (StoreConfig.UseMetadataOffload cfg); simpl negb; cbv iota.
  2:{ rewrite allHDD_fold, filter_filter. done. }
  destruct ((length hdds <? length ssds) || (length ssds =? 0)); [done|].
  rewrite hybrid_outer_loop; [done|].
  rewrite divide_loop_length. lia.
Qed.

Lemma hybrid_flat_elem cfg ssds i groups rt :
  rt ∈ hybrid_flat cfg ssds i groups →
  ∃ d ssd, d ∈ concat groups ∧ ssd ∈ ssds ∧ rt = hybrid_rtdev cfg d ssd.
Proof.
  revert i. induction groups as [|g gs IH]; intros i Hin; simpl in Hin.
  - by apply elem_of_nil in Hin.
  - apply elem_of_app in Hin as [Hin|Hin].
    + destruct (ssds !! i) as [ssd|] eqn:Hssd; [|by apply elem_of_nil in Hin].
      apply list_elem_of_fmap in Hin as (d & -> & Hd).
      exists d, ssd. split; [|split; [|done]].
      * simpl. apply elem_of_app. by left.
      * by eapply list_elem_of_lookup_2.
    + destruct (IH _ Hin) as (d & ssd & Hd & Hssd & ->).
      exists d, ssd. split; [|done]. simpl. apply elem_of_app. by right.
Qed.

Lemma layout_hybrid cfg ssds hdds :
  StoreConfig.UseAllSSD cfg = false →
  StoreConfig.UseMetadataOffload cfg = true →
  1 ≤ length ssds → length ssds ≤ length hdds →
  layout cfg ssds hdds =
  RTResult.mk (hybrid_flat cfg ssds 0 (divide_loop (length ssds) [] hdds)) None [].
Proof.
  intros Hall Hoff Hs Hh. unfold layout. rewrite Hall, Hoff. simpl negb.
  destruct (Nat.eqb_spec (length hdds) 0); [lia|].
  destruct (Nat.ltb_spec (length hdds) (length ssds)); [lia|].
  destruct (Nat.eqb_spec (length ssds) 0); [lia|]. done.
Qed.

Lemma GetRTDevices_hybrid nodeDisks cfg :
  StoreConfig.UseAllSSD cfg = false →
  StoreConfig.UseMetadataOffload cfg = true →
  1 ≤ length (List.filter eligible_ssd nodeDisks) →
  length (List.filter eligible_ssd nodeDisks) ≤ length (List.filter eligible_hdd nodeDisks) →
  GetRTDevices nodeDisks (Some cfg) =
  Returned (RTResult.mk
    (hybrid_flat cfg (List.filter eligible_ssd nodeDisks) 0
       (divide_loop (length (List.filter eligible_ssd nodeDisks)) []
          (List.filter eligible_hdd nodeDisks)))
    None []).
Proof.
  intros Hall Hoff Hs Hh. rewrite GetRTDevices_layout.
  destruct (Nat.eqb_spec (length nodeDisks) 0) as [Hz|_].
  - apply length_zero_iff_nil in Hz. subst. simpl in Hs. lia.
  - by rewrite layout_hybrid.
Qed.

(** * The claims *)

(** C1. Under the hybrid policy, with at least one eligible solid-state
    disk and at least as many eligible rotational disks, [GetRTDevices]
    cuts the eligible rotational disks into as many consecutive groups as
    there are eligible solid-state disks and emits the assignments group by
    group; the groups concatenate back to the rotational disks (each disk
    in exactly one group, the sizes adding up to their number), any two
    group sizes differ by at most one, and the sizes never increase from
    one group to a later one. *)
Theorem C1_hybrid_balanced_partition (nodeDisks : list LocalDisk.t) (cfg : StoreConfig.t) :
  let ssds := List.filter eligible_ssd nodeDisks in
  let hdds := List.filter eligible_hdd nodeDisks in
  let groups := divide_loop (length ssds) [] hdds in
  StoreConfig.UseAllSSD cfg = false →
  StoreConfig.UseMetadataOffload cfg = true →
  1 ≤ length ssds →
  length ssds ≤ length hdds →
  Buckets.ssds (classify nodeDisks) = ssds ∧
  Buckets.hdds (classify nodeDisks) = hdds ∧
  GetRTDevices nodeDisks (Some cfg) =
    Returned (RTResult.mk (hybrid_flat cfg ssds 0 groups) None []) ∧
  length (hybrid_flat cfg ssds 0 groups) = length hdds ∧
  length groups = length ssds ∧
  concat groups = hdds ∧
  sum_list (length <$> groups) = length hdds ∧
  (∀ g1 g2, g1 ∈ groups → g2 ∈ groups → length g1 ≤ length g2 + 1) ∧
  (∀ a b g1 g2, a ≤ b → groups !! a = Some g1 → groups !! b = Some g2 →
     length g2 ≤ length g1).
Proof.
  intros ssds hdds groups Hall Hoff Hs Hh.
  assert (Hcat : concat groups = hdds) by (apply divide_loop_concat; lia).
  assert (Hlen : length groups = length ssds) by apply divide_loop_length.
  rewrite classify_filter. cbn [Buckets.ssds Buckets.hdds].
  split; [done|]. split; [done|].
  split; [by apply GetRTDevices_hybrid|].
  split; [rewrite hybrid_flat_length, Hcat; [done|lia]|].
  split; [done|]. split; [done|].
  split; [by rewrite sum_list_length_concat, Hcat|].
  split.
  - intros g1 g2. apply divide_loop_balanced. lia.
  - intros a b g1 g2. apply divide_loop_nonincreasing.
Qed.

Lemma C1_hybrid_balanced_partition_witness :
  let ssds := List.filter eligible_ssd sample_disks in
  let hdds := List.filter eligible_hdd sample_disks in
  let groups := divide_loop (length ssds) [] hdds in
  (1 ≤ length ssds ∧ length ssds ≤ length hdds) ∧
  length groups = length ssds ∧
  concat groups = hdds ∧
  (∀ g1 g2, g1 ∈ groups → g2 ∈ groups → length g1 ≤ length g2 + 1).
Proof.
  intros ssds hdds groups.
  assert (H1 : 1 ≤ length ssds) by (vm_compute; lia).
  assert (H2 : length ssds ≤ length hdds) by (vm_compute; lia).
  pose proof (C1_hybrid_balanced_partition sample_disks hybrid_config
                eq_refl eq_refl H1 H2) as (_ & _ & _ & _ & Hl & Hc & _ & Hb & _).
  exact (conj (conj H1 H2) (conj Hl (conj Hc Hb))).
Defined.

Lemma hybrid_rtdev_cache cfg d ssd :
  RTDevice.BcacheWritearound (hybrid_rtdev cfg d ssd) =
    (if StoreConfig.UseBCacheWB cfg then 0 else 1)%Z ∧
  RTDevice.Bcache (hybrid_rtdev cfg d ssd) =
    (if StoreConfig.UseBCache cfg then 1 else 0)%Z.
Proof.
  unfold hybrid_rtdev.
  destruct (StoreConfig.UseBCache cfg), (StoreConfig.UseBCacheWB cfg);
    case_bool_decide; done.
Qed.

Lemma hybrid_rtdev_fields cfg d ssd :
  RTDevice.Name (hybrid_rtdev cfg d ssd) = getIdDevLinkName (LocalDisk.DevLinks d) ∧
  RTDevice.Device (hybrid_rtdev cfg d ssd) = "/dev/" +:+ LocalDisk.Name d ∧
  RTDevice.Journal (hybrid_rtdev cfg d ssd) = getIdDevLinkName (LocalDisk.DevLinks ssd) ∧
  RTDevice.Metadata (hybrid_rtdev cfg d ssd) =
    getIdDevLinkName (LocalDisk.DevLinks ssd) +:+ "," +:+ StoreConfig.UseMetadataMask cfg.
Proof.
  unfold hybrid_rtdev.
  destruct (StoreConfig.UseBCache cfg), (StoreConfig.UseBCacheWB cfg);
    case_bool_decide; done.
Qed.

(** Whatever the hybrid policy returns is made of [hybrid_rtdev] records. *)
Lemma GetRTDevices_hybrid_elem nodeDisks cfg r rt :
  StoreConfig.UseAllSSD cfg = false →
  StoreConfig.UseMetadataOffload cfg = true →
  GetRTDevices nodeDisks (Some cfg) = Returned r →
  rt ∈ RTResult.rtDevices r →
  ∃ d ssd, d ∈ List.filter eligible_hdd nodeDisks ∧
           ssd ∈ List.filter eligible_ssd nodeDisks ∧
           rt = hybrid_rtdev cfg d ssd.
Proof.
  intros Hall Hoff Hrun Hin. rewrite GetRTDevices_layout in Hrun.
  injection Hrun as <-.
  destruct (length nodeDisks =? 0); [by apply elem_of_nil in Hin|].
  unfold layout in Hin. rewrite Hall, Hoff in Hin. simpl negb in Hin.
  set (ssds := List.filter eligible_ssd nodeDisks) in *.
  set (hdds := List.filter eligible_hdd nodeDisks) in *.
  destruct (length hdds =? 0); [by apply elem_of_nil in Hin|].
  destruct (Nat.ltb_spec (length hdds) (length ssds));
    [by apply elem_of_nil in Hin|].
  destruct (Nat.eqb_spec (length ssds) 0); [by apply elem_of_nil in Hin|].
  simpl in Hin. apply hybrid_flat_elem in Hin as (d & ssd & Hd & Hssd & ->).
  rewrite divide_loop_concat in Hd by lia. by exists d, ssd.
Qed.

(** C2, as the code has it. For every assignment the hybrid policy
    produces, the write-around field follows [useBCacheWB] alone (0 when it
    is set, 1 when it is not) and the cache field follows [useBCache] alone:
    cache off and no write-back gives write-around 1; cache off with
    write-back gives write-around 0; cache on without write-back gives
    write-around 1 and cache 1; cache on with write-back gives write-around
    0 and cache 1. *)
Theorem C2_hybrid_cache_fields (nodeDisks : list LocalDisk.t) (cfg : StoreConfig.t)
    (r : RTResult.t) (rt : RTDevice.t) :
  StoreConfig.UseAllSSD cfg = false →
  StoreConfig.UseMetadataOffload cfg = true →
  GetRTDevices nodeDisks (Some cfg) = Returned r →
  rt ∈ RTResult.rtDevices r →
  match StoreConfig.UseBCache cfg, StoreConfig.UseBCacheWB cfg with
  | false, false => RTDevice.BcacheWritearound rt = 1%Z ∧ RTDevice.Bcache rt = 0%Z
  | false, true => RTDevice.BcacheWritearound rt = 0%Z ∧ RTDevice.Bcache rt = 0%Z
  | true, false => RTDevice.BcacheWritearound rt = 1%Z ∧ RTDevice.Bcache rt = 1%Z
  | true, true => RTDevice.BcacheWritearound rt = 0%Z ∧ RTDevice.Bcache rt = 1%Z
  end.
Proof.
  intros Hall Hoff Hrun Hin.
  destruct (GetRTDevices_hybrid_elem _ _ _ _ Hall Hoff Hrun Hin) as (d & ssd & _ & _ & ->).
  destruct (hybrid_rtdev_cache cfg d ssd) as [-> ->].
  by destruct (StoreConfig.UseBCache cfg), (StoreConfig.UseBCacheWB cfg).
Qed.

Lemma C2_hybrid_cache_fields_witness :
  let r := layout writeback_only_config
             (List.filter eligible_ssd sample_disks)
             (List.filter eligible_hdd sample_disks) in
  let rt := hybrid_rtdev writeback_only_config
              (disk "sda" "/dev/disk/by-id/wwn-0x5000a /dev/disk/by-id/ata-A" true)
              (disk "nvme0n1" "/dev/disk/by-id/nvme-N0" false) in
  GetRTDevices sample_disks (Some writeback_only_config) = Returned r ∧
  rt ∈ RTResult.rtDevices r ∧
  RTDevice.BcacheWritearound rt = 0%Z ∧ RTDevice.Bcache rt = 0%Z.
Proof.
  intros r rt.
  assert (Hrun : GetRTDevices sample_disks (Some writeback_only_config) = Returned r)
    by (vm_compute; reflexivity).
  assert (Hin : rt ∈ RTResult.rtDevices r) by (vm_compute; apply list_elem_of_here).
  split; [exact Hrun|]. split; [exact Hin|].
  exact (C2_hybrid_cache_fields sample_disks writeback_only_config r rt
           eq_refl eq_refl Hrun Hin).
Defined.

(** C2 as stated fails: with the cache off and write-back requested, the
    hybrid policy emits write-around 0, not 1. *)
Lemma C2_counterexample :
  StoreConfig.UseBCache writeback_only_config = false ∧
  StoreConfig.UseAllSSD writeback_only_config = false ∧
  StoreConfig.UseMetadataOffload writeback_only_config = true ∧
  ∃ r rt,
    GetRTDevices [disk "sda" "ata-A" true; disk "nvme0n1" "nvme-N0" false]
      (Some writeback_only_config) = Returned r ∧
    RTResult.err r = None ∧
    rt ∈ RTResult.rtDevices r ∧
    RTDevice.BcacheWritearound rt = 0%Z ∧
    RTDevice.BcacheWritearound rt ≠ 1%Z.
Proof.
  split; [done|]. split; [done|]. split; [done|].
  eexists _, _. split; [vm_compute; reflexivity|].
  split; [done|]. split; [apply list_elem_of_here|]. done.
Qed.

(** C3. Under the hybrid policy, the assignment produced for member [j]
    of group [i] (it comes after the members of the groups before it)
    names the rotational disk as its device, has the normalized name of
    solid-state disk [i] as its journal, and has that name, a comma and
    the configured mask as its metadata identifier. *)
Theorem C3_hybrid_journal_metadata (nodeDisks : list LocalDisk.t) (cfg : StoreConfig.t)
    (i j : nat) (g : list LocalDisk.t) (d : LocalDisk.t) :
  let ssds := List.filter eligible_ssd nodeDisks in
  let hdds := List.filter eligible_hdd nodeDisks in
  let groups := divide_loop (length ssds) [] hdds in
  StoreConfig.UseAllSSD cfg = false →
  StoreConfig.UseMetadataOffload cfg = true →
  1 ≤ length ssds →
  length ssds ≤ length hdds →
  groups !! i = Some g →
  g !! j = Some d →
  ∃ ssd r rt,
    ssds !! i = Some ssd ∧
    GetRTDevices nodeDisks (Some cfg) = Returned r ∧
    RTResult.err r = None ∧
    RTResult.rtDevices r !! (sum_list (length <$> take i groups) + j) = Some rt ∧
    RTDevice.Device rt = "/dev/" +:+ LocalDisk.Name d ∧
    RTDevice.Journal rt = getIdDevLinkName (LocalDisk.DevLinks ssd) ∧
    RTDevice.Metadata rt =
      getIdDevLinkName (LocalDisk.DevLinks ssd) +:+ "," +:+
      StoreConfig.UseMetadataMask cfg.
Proof.
  intros ssds hdds groups Hall Hoff Hs Hh Hg Hd.
  destruct (hybrid_flat_lookup cfg ssds 0 groups i g j d) as (ssd & Hssd & Hlook);
    [unfold groups; rewrite divide_loop_length; lia|done|done|].
  destruct (hybrid_rtdev_fields cfg d ssd) as (_ & Hdev & Hj & Hm).
  exists ssd, (RTResult.mk (hybrid_flat cfg ssds 0 groups) None []),
    (hybrid_rtdev cfg d ssd).
  split; [done|]. split; [by apply GetRTDevices_hybrid|]. done.
Qed.

Lemma C3_hybrid_journal_metadata_witness :
  ∃ rt,
    (match GetRTDevices sample_disks (Some hybrid_config) with
     | Returned r => RTResult.rtDevices r !! 2
     | Panicked _ => None
     end) = Some rt ∧
    RTDevice.Device rt = "/dev/sdc" ∧
    RTDevice.Journal rt = "nvme-N1" ∧
    RTDevice.Metadata rt = "nvme-N1,0xff".
Proof.
  destruct (C3_hybrid_journal_metadata sample_disks hybrid_config 1 0
              [disk "sdc" "/dev/disk/by-id/ata-C" true]
              (disk "sdc" "/dev/disk/by-id/ata-C" true)
              eq_refl eq_refl
              ltac:(vm_compute; lia) ltac:(vm_compute; lia)
              ltac:(vm_compute; reflexivity) eq_refl)
    as (ssd & r & rt & Hssd & Hrun & _ & Hlook & Hdev & Hj & Hm).
  exists rt. rewrite Hrun.
  assert (ssd = disk "nvme1n1" "/dev/disk/by-id/nvme-N1" false) as ->
    by (vm_compute in Hssd; injection Hssd as <-; reflexivity).
  split; [exact Hlook|]. split; [exact Hdev|]. split; [exact Hj|exact Hm].
Defined.

(** ** Zero eligible disks *)

Lemma nonempty_length {A} (l : list A) : l ≠ [] → (length l =? 0) = false.
Proof. destruct l; [done|]. by intros _. Qed.

(** C4, as the code has it. For a non-empty disk list and a configuration,
    zero eligible solid-state disks under the all-solid-state policy, or
    zero eligible rotational disks under the all-rotational or hybrid
    policy, gives a configuration error and no assignment; an empty disk
    list gives an empty list and no error, whatever the policy. *)
Theorem C4_zero_eligible_is_error (nodeDisks : list LocalDisk.t) (cfg : StoreConfig.t) :
  (nodeDisks ≠ [] →
   (StoreConfig.UseAllSSD cfg = true ∧ List.filter eligible_ssd nodeDisks = []) ∨
   (StoreConfig.UseAllSSD cfg = false ∧ List.filter eligible_hdd nodeDisks = []) →
   ∃ e, GetRTDevices nodeDisks (Some cfg) = Returned (RTResult.mk [] (Some e) [])) ∧
  GetRTDevices [] (Some cfg) = Returned (RTResult.mk [] None []).
Proof.
  split; [|done].
  intros Hne Hzero. rewrite GetRTDevices_layout, nonempty_length by done.
  unfold layout, empty_result.
  destruct Hzero as [[-> ->]|[-> ->]]; simpl; eauto.
Qed.

Lemma C4_zero_eligible_is_error_witness :
  ∃ e, GetRTDevices [disk "sda" "ata-A" true] (Some (sample_config true false false false))
       = Returned (RTResult.mk [] (Some e) []).
Proof.
  apply (proj1 (C4_zero_eligible_is_error [disk "sda" "ata-A" true]
                  (sample_config true false false false))).
  - discriminate.
  - left. split; reflexivity.
Defined.

(** C4 as stated fails on the empty disk list: no eligible disk of any
    kind, and the call succeeds with an empty list under each policy. *)
Lemma C4_counterexample :
  List.filter eligible_ssd [] = [] ∧ List.filter eligible_hdd [] = [] ∧
  GetRTDevices [] (Some (sample_config true false false false))
    = Returned (RTResult.mk [] None []) ∧
  GetRTDevices [] (Some (sample_config false false false false))
    = Returned (RTResult.mk [] None []) ∧
  GetRTDevices [] (Some (sample_config false true false false))
    = Returned (RTResult.mk [] None []).
Proof. repeat split. Qed.

(** ** One assignment per disk of the chosen kind *)

Lemma plain_rtdev_fields cfg d :
  RTDevice.Name (plain_rtdev cfg d) = getIdDevLinkName (LocalDisk.DevLinks d) ∧
  RTDevice.Device (plain_rtdev cfg d) = "/dev/" +:+ LocalDisk.Name d ∧
  RTDevice.Psize (plain_rtdev cfg d) = StoreConfig.LmdbPageSize cfg ∧
  RTDevice.VerifyChid (plain_rtdev cfg d) = StoreConfig.RtVerifyChid cfg ∧
  RTDevice.Sync (plain_rtdev cfg d) = StoreConfig.Sync cfg ∧
  RTDevice.PlevelOverride (plain_rtdev cfg d) = StoreConfig.RtPLevelOverride cfg.
Proof.
  unfold plain_rtdev. case_bool_decide as Hp; simpl; [done|].
  repeat split. by rewrite Hp.
Qed.

(** C6, as the code has it. Under the all-solid-state policy: with at
    least one eligible solid-state disk the call succeeds with exactly one
    assignment per eligible solid-state disk, in discovery order, and none
    for a rotational disk; with a non-empty disk list and no eligible
    solid-state disk it fails with the error "No SSD/NVMe media found". *)
Theorem C6_all_ssd_policy (nodeDisks : list LocalDisk.t) (cfg : StoreConfig.t) :
  let ssds := List.filter eligible_ssd nodeDisks in
  StoreConfig.UseAllSSD cfg = true →
  (ssds ≠ [] →
   ∃ r, GetRTDevices nodeDisks (Some cfg) = Returned r ∧
        RTResult.err r = None ∧
        RTResult.rtDevices r = plain_rtdev cfg <$> ssds ∧
        length (RTResult.rtDevices r) = length ssds ∧
        RTDevice.Device <$> RTResult.rtDevices r =
          (λ d, "/dev/" +:+ LocalDisk.Name d) <$> ssds ∧
        (∀ d, d ∈ ssds → d ∈ nodeDisks ∧ LocalDisk.Rotational d = false)) ∧
  (nodeDisks ≠ [] → ssds = [] →
   GetRTDevices nodeDisks (Some cfg) =
   Returned (RTResult.mk [] (Some (Errorf "No SSD/NVMe media found")) [])).
Proof.
  intros ssds Hall. split.
  - intros Hne.
    assert (Hnd : nodeDisks ≠ []) by (intros ->; by apply Hne).
    rewrite GetRTDevices_layout, nonempty_length by done.
    unfold layout. rewrite Hall. fold ssds. rewrite nonempty_length by done.
    eexists. split; [done|]. cbn [RTResult.err RTResult.rtDevices].
    split; [done|]. split; [done|]. split; [by rewrite length_fmap|]. split.
    + rewrite <- list_fmap_compose. apply list_fmap_ext. intros _ d _.
      apply plain_rtdev_fields.
    + intros d Hd. apply list_elem_of_In, List.filter_In in Hd as [Hd He].
      split; [by apply list_elem_of_In|].
      unfold eligible_ssd in He. apply andb_prop in He as [_ He].
      by apply negb_true_iff in He.
  - intros Hnd Hz. rewrite GetRTDevices_layout, nonempty_length by done.
    unfold layout. rewrite Hall. fold ssds. by rewrite Hz.
Qed.

Lemma C6_all_ssd_policy_witness :
  ∃ r, GetRTDevices sample_disks (Some (sample_config true false false false)) = Returned r ∧
       RTDevice.Device <$> RTResult.rtDevices r = ["/dev/nvme0n1"; "/dev/nvme1n1"].
Proof.
  destruct (proj1 (C6_all_ssd_policy sample_disks (sample_config true false false false)
                     eq_refl) ltac:(vm_compute; discriminate))
    as (r & Hrun & _ & _ & _ & Hdev & _).
  exists r. split; [exact Hrun|]. rewrite Hdev. vm_compute. reflexivity.
Defined.

(** C6 as stated fails on the empty disk list: no eligible solid-state
    disk exists, yet the call succeeds with an empty list. *)
Lemma C6_counterexample :
  StoreConfig.UseAllSSD (sample_config true false false false) = true ∧
  List.filter eligible_ssd [] = [] ∧
  GetRTDevices [] (Some (sample_config true false false false))
    = Returned (RTResult.mk [] None []).
Proof. repeat split. Qed.

(** C7, as the code has it. Under the all-rotational policy: with at
    least one eligible rotational disk the call succeeds with exactly one
    assignment per eligible rotational disk, in discovery order, and none
    for a solid-state disk; with a non-empty disk list and no eligible
    rotational disk it fails with the error "No HDD media found". *)
Theorem C7_all_hdd_policy (nodeDisks : list LocalDisk.t) (cfg : StoreConfig.t) :
  let hdds := List.filter eligible_hdd nodeDisks in
  StoreConfig.UseAllSSD cfg = false →
  StoreConfig.UseMetadataOffload cfg = false →
  (hdds ≠ [] →
   ∃ r, GetRTDevices nodeDisks (Some cfg) = Returned r ∧
        RTResult.err r = None ∧
        RTResult.rtDevices r = plain_rtdev cfg <$> hdds ∧
        length (RTResult.rtDevices r) = length hdds ∧
        RTDevice.Device <$> RTResult.rtDevices r =
          (λ d, "/dev/" +:+ LocalDisk.Name d) <$> hdds ∧
        (∀ d, d ∈ hdds → d ∈ nodeDisks ∧ LocalDisk.Rotational d = true)) ∧
  (nodeDisks ≠ [] → hdds = [] →
   GetRTDevices nodeDisks (Some cfg) =
   Returned (RTResult.mk [] (Some (Errorf "No HDD media found")) [])).
Proof.
  intros hdds Hall Hoff. split.
  - intros Hne.
    assert (Hnd : nodeDisks ≠ []) by (intros ->; by apply Hne).
    rewrite GetRTDevices_layout, nonempty_length by done.
    unfold layout. rewrite Hall, Hoff. fold hdds. rewrite nonempty_length by done.
    eexists. split; [done|]. cbn [RTResult.err RTResult.rtDevices negb].
    split; [done|]. split; [done|]. split; [by rewrite length_fmap|]. split.
    + rewrite <- list_fmap_compose. apply list_fmap_ext. intros _ d _.
      apply plain_rtdev_fields.
    + intros d Hd. apply list_elem_of_In, List.filter_In in Hd as [Hd He].
      split; [by apply list_elem_of_In|].
      unfold eligible_hdd in He. by apply andb_prop in He as [_ He].
  - intros Hnd Hz. rewrite GetRTDevices_layout, nonempty_length by done.
    unfold layout. rewrite Hall. fold hdds. by rewrite Hz.
Qed.

Lemma C7_all_hdd_policy_witness :
  ∃ r, GetRTDevices sample_disks (Some (sample_config false false false false)) = Returned r ∧
       RTDevice.Device <$> RTResult.rtDevices r = ["/dev/sda"; "/dev/sdb"; "/dev/sdc"].
Proof.
  destruct (proj1 (C7_all_hdd_policy sample_disks (sample_config false false false false)
                     eq_refl eq_refl) ltac:(vm_compute; discriminate))
    as (r & Hrun & _ & _ & _ & Hdev & _).
  exists r. split; [exact Hrun|]. rewrite Hdev. vm_compute. reflexivity.
Defined.

(** C7 as stated fails on the empty disk list: no eligible rotational
    disk exists, yet the call succeeds with an empty list. *)
Lemma C7_counterexample :
  StoreConfig.UseAllSSD (sample_config false false false false) = false ∧
  StoreConfig.UseMetadataOffload (sample_config false false false false) = false ∧
  List.filter eligible_hdd [] = [] ∧
  GetRTDevices [] (Some (sample_config false false false false))
    = Returned (RTResult.mk [] None []).
Proof. repeat split. Qed.

(** ** Ineligible disks *)

Lemma filter_drop_one {A} (f : A → bool) l1 x l2 :
  f x = false → List.filter f (l1 ++ x :: l2) = List.filter f (l1 ++ l2).
Proof. intros Hx. rewrite !List.filter_app. simpl. by rewrite Hx. Qed.

Lemma layout_none_eligible cfg : RTResult.rtDevices (layout cfg [] []) = [].
Proof. unfold layout. by destruct (StoreConfig.UseAllSSD cfg). Qed.

(** Every assignment [layout] makes comes from a disk of one of its two
    buckets. *)
Lemma layout_elem cfg ssds hdds rt :
  rt ∈ RTResult.rtDevices (layout cfg ssds hdds) →
  ∃ d, (d ∈ ssds ∨ d ∈ hdds) ∧
       RTDevice.Name rt = getIdDevLinkName (LocalDisk.DevLinks d) ∧
       RTDevice.Device rt = "/dev/" +:+ LocalDisk.Name d.
Proof.
  unfold layout. intros Hin.
  destruct (StoreConfig.UseAllSSD cfg).
  { destruct (length ssds =? 0); [by apply elem_of_nil in Hin|].
    apply list_elem_of_fmap in Hin as (d & -> & Hd).
    exists d. split; [by left|]. split; apply plain_rtdev_fields. }
  destruct (length hdds =? 0); [by apply elem_of_nil in Hin|].
  destruct (StoreConfig.UseMetadataOffload cfg); simpl negb in Hin; cbv iota in Hin.
  2:{ apply list_elem_of_fmap in Hin as (d & -> & Hd).
      exists d. split; [by right|]. split; apply plain_rtdev_fields. }
  destruct (Nat.ltb_spec (length hdds) (length ssds));
    [by apply elem_of_nil in Hin|].
  destruct (Nat.eqb_spec (length ssds) 0); [by apply elem_of_nil in Hin|].
  simpl in Hin. apply hybrid_flat_elem in Hin as (d & ssd & Hd & _ & ->).
  rewrite divide_loop_concat in Hd by lia.
  exists d. split; [by right|]. split; apply hybrid_rtdev_fields.
Qed.

(** C8. A disk that is not empty, or that has at least one partition,
    contributes nothing: with it or without it in the input, under any
    configuration, [GetRTDevices] returns the same assignments (and, when
    other disks remain, the same result altogether), and every assignment
    returned is that of an eligible disk of the rest of the input. *)
Theorem C8_ineligible_disk_excluded (l1 l2 : list LocalDisk.t) (d : LocalDisk.t)
    (cfg : StoreConfig.t) :
  LocalDisk.Empty d = false ∨ 0 < length (LocalDisk.Partitions d) →
  ∃ r r',
    GetRTDevices (l1 ++ d :: l2) (Some cfg) = Returned r ∧
    GetRTDevices (l1 ++ l2) (Some cfg) = Returned r' ∧
    RTResult.rtDevices r = RTResult.rtDevices r' ∧
    (l1 ++ l2 ≠ [] → r = r') ∧
    (∀ rt, rt ∈ RTResult.rtDevices r →
       ∃ d', d' ∈ l1 ++ l2 ∧
             LocalDisk.Empty d' = true ∧ length (LocalDisk.Partitions d') = 0 ∧
             RTDevice.Name rt = getIdDevLinkName (LocalDisk.DevLinks d') ∧
             RTDevice.Device rt = "/dev/" +:+ LocalDisk.Name d').
Proof.
  intros Hd.
  assert (He : eligible d = false).
  { unfold eligible. destruct Hd as [->|Hp]; [done|].
    destruct (Nat.eqb_spec (length (LocalDisk.Partitions d)) 0); [lia|].
    apply andb_false_r. }
  assert (Hs : eligible_ssd d = false) by (unfold eligible_ssd; by rewrite He).
  assert (Hh : eligible_hdd d = false) by (unfold eligible_hdd; by rewrite He).
  rewrite !GetRTDevices_layout.
  rewrite (nonempty_length (l1 ++ d :: l2)) by (by destruct l1).
  rewrite (filter_drop_one _ _ _ _ Hs), (filter_drop_one _ _ _ _ Hh).
  eexists _, _. split; [done|]. split; [done|].
  split; [|split].
  - destruct (l1 ++ l2) as [|x l]; [|done]. simpl. apply layout_none_eligible.
  - intros Hne. by rewrite nonempty_length.
  - intros rt Hin. apply layout_elem in Hin as (d' & Hd' & Hname & Hdev).
    exists d'.
    assert (Hel : d' ∈ l1 ++ l2 ∧ eligible d' = true).
    { destruct Hd' as [Hd'|Hd'];
        apply list_elem_of_In, List.filter_In in Hd' as [Hd' Hel];
        (split; [by apply list_elem_of_In|]);
        apply andb_prop in Hel as [Hel _]; done. }
    destruct Hel as [Hmem Hel]. unfold eligible in Hel.
    apply andb_prop in Hel as [Hemp Hpart]. apply Nat.eqb_eq in Hpart. done.
Qed.

Lemma C8_ineligible_disk_excluded_witness :
  ∃ r r',
    GetRTDevices sample_disks (Some hybrid_config) = Returned r ∧
    GetRTDevices
      [ disk "sda" "/dev/disk/by-id/wwn-0x5000a /dev/disk/by-id/ata-A" true;
        disk "nvme0n1" "/dev/disk/by-id/nvme-N0" false;
        disk "sdb" "/dev/disk/by-id/ata-B" true;
        LocalDisk.mk "sdy" "/dev/disk/by-id/ata-Y" true true [Partition.mk "sdy1"];
        disk "sdc" "/dev/disk/by-id/ata-C" true;
        disk "nvme1n1" "/dev/disk/by-id/nvme-N1" false ]
      (Some hybrid_config) = Returned r' ∧
    r = r'.
Proof.
  destruct (C8_ineligible_disk_excluded
              [ disk "sda" "/dev/disk/by-id/wwn-0x5000a /dev/disk/by-id/ata-A" true;
                disk "nvme0n1" "/dev/disk/by-id/nvme-N0" false ]
              [ disk "sdb" "/dev/disk/by-id/ata-B" true;
                LocalDisk.mk "sdy" "/dev/disk/by-id/ata-Y" true true [Partition.mk "sdy1"];
                disk "sdc" "/dev/disk/by-id/ata-C" true;
                disk "nvme1n1" "/dev/disk/by-id/nvme-N1" false ]
              (LocalDisk.mk "sdz" "/dev/disk/by-id/ata-Z" true false [])
              hybrid_config (or_introl eq_refl))
    as (r & r' & Hr & Hr' & _ & Heq & _).
  exists r, r'. split; [exact Hr|]. split; [exact Hr'|].
  apply Heq. discriminate.
Defined.

(** ** The missing configuration *)

(** C9, as the code has it. Without a configuration [GetRTDevices]
    reports the condition to its caller: it returns the error "no pointer
    to StoreConfig provided" with an empty list, whatever the disks, and
    prints nothing. *)
Theorem C9_missing_config (nodeDisks : list LocalDisk.t) :
  GetRTDevices nodeDisks None =
    Returned (RTResult.mk [] (Some (Errorf "no pointer to StoreConfig provided")) []).
Proof. done. Qed.

(** C9 as stated fails for [GetRtlfsDevices], which has no error result
    and no check: without a configuration it panics on the first
    directory, and returns an empty list when there is none. *)
Lemma C9_counterexample :
  GetRtlfsDevices [Directory.mk "/data/edgefs"] None =
    Panicked "invalid memory address or nil pointer dereference" ∧
  GetRtlfsDevices [] None = Returned [].
Proof. done. Qed.

(** ** The directory planner *)

Lemma rtlfs_loop cfg i directories acc :
  for_range (rtlfs_body (Some cfg)) i directories acc =
  Returned (acc ++ (rtlfs_device cfg <$> directories)).
Proof.
  revert i acc. induction directories as [|dir dirs IH]; intros i acc.
  - simpl. by rewrite app_nil_r.
  - cbn [for_range].
    assert (rtlfs_body (Some cfg) i dir acc = Returned (acc ++ [rtlfs_device cfg dir]))
      as -> by done.
    cbn [mbind outcome_mbind outcome_bind]. rewrite IH. by rewrite <- app_assoc.
Qed.

Lemma rtlfs_device_fields cfg dir :
  RtlfsDevice.Name (rtlfs_device cfg dir) = filepath.Base (Directory.Path dir) ∧
  RtlfsDevice.Path (rtlfs_device cfg dir) = Directory.Path dir ∧
  RtlfsDevice.CheckMountpoint (rtlfs_device cfg dir) = 0%Z ∧
  RtlfsDevice.Psize (rtlfs_device cfg dir) = StoreConfig.LmdbPageSize cfg ∧
  RtlfsDevice.VerifyChid (rtlfs_device cfg dir) = StoreConfig.RtVerifyChid cfg ∧
  RtlfsDevice.Sync (rtlfs_device cfg dir) = StoreConfig.Sync cfg ∧
  RtlfsDevice.Maxsize (rtlfs_device cfg dir) = StoreConfig.MaxSize cfg ∧
  RtlfsDevice.PlevelOverride (rtlfs_device cfg dir) = StoreConfig.RtPLevelOverride cfg.
Proof.
  unfold rtlfs_device.
  case_bool_decide as Hm; case_bool_decide as Hp; simpl; repeat split; congruence.
Qed.

(** *** [filepath.Base] picks the last element *)

Lemma append_cons a s t : String a s +:+ t = String a (s +:+ t).
Proof. reflexivity. Qed.

Lemma append_nil s : "" +:+ s = s.
Proof. reflexivity. Qed.

Lemma append_empty_inv s t : s +:+ t = "" → s = "" ∧ t = "".
Proof. destruct s; [by rewrite append_nil|by rewrite append_cons]. Qed.

Lemma append_assoc s t u : (s +:+ t) +:+ u = s +:+ t +:+ u.
Proof. induction s as [|a s IH]; [done|]. by rewrite !append_cons, IH. Qed.

Lemma hasSeparator_app s t :
  filepath.hasSeparator (s +:+ t) = filepath.hasSeparator s || filepath.hasSeparator t.
Proof.
  induction s as [|a s IH]; [done|].
  rewrite append_cons. simpl. by rewrite IH, orb_assoc.
Qed.

Lemma stripTrailing_no_separator c :
  c ≠ "" → filepath.hasSeparator c = false → filepath.stripTrailing c = c.
Proof.
  induction c as [|a c IH]; [done|]. intros _ Hsep. simpl in Hsep.
  apply orb_false_elim in Hsep as [Ha Hc]. simpl.
  destruct c as [|b c].
  - simpl. by rewrite Ha.
  - rewrite IH by done. done.
Qed.

Lemma stripTrailing_app p c :
  c ≠ "" → filepath.hasSeparator c = false →
  filepath.stripTrailing (p +:+ c) = p +:+ c.
Proof.
  intros Hc Hsep. induction p as [|a p IH].
  - rewrite append_nil. by apply stripTrailing_no_separator.
  - rewrite append_cons. simpl. rewrite IH.
    destruct (p +:+ c) eqn:Heq; [|done].
    apply append_empty_inv in Heq as [_ ?]. done.
Qed.

Lemma lastElement_no_separator c :
  filepath.hasSeparator c = false → filepath.lastElement c = c.
Proof.
  destruct c as [|a c]; [done|]. simpl. intros Hsep.
  apply orb_false_elim in Hsep as [-> ->]. done.
Qed.

Lemma lastElement_app p c :
  filepath.hasSeparator c = false →
  filepath.lastElement (p +:+ "/" +:+ c) = c.
Proof.
  intros Hsep. induction p as [|a p IH].
  - rewrite append_nil, append_cons, append_nil. simpl. by rewrite Hsep.
  - rewrite append_cons. simpl. rewrite hasSeparator_app, append_cons. simpl.
    rewrite orb_true_r. apply IH.
Qed.

Lemma stripTrailing_only t :
  onlySeparators t = true → filepath.stripTrailing t = "".
Proof.
  induction t as [|a t IH]; [done|]. simpl. intros Ht.
  apply andb_prop in Ht as [Ha Ht]. by rewrite IH, Ha.
Qed.

Lemma stripTrailing_trailing q t :
  onlySeparators t = true →
  filepath.stripTrailing (q +:+ t) = filepath.stripTrailing q.
Proof.
  intros Ht. induction q as [|a q IH].
  - rewrite append_nil. by apply stripTrailing_only.
  - rewrite append_cons. simpl. by rewrite IH.
Qed.

(** The last element of [p/c], with or without trailing separators, is
    [c], and so is that of [c] alone. *)
Lemma Base_last_element p c t :
  c ≠ "" → filepath.hasSeparator c = false → onlySeparators t = true →
  filepath.Base (p +:+ "/" +:+ c +:+ t) = c ∧ filepath.Base (c +:+ t) = c.
Proof.
  intros Hc Hsep Ht. unfold filepath.Base. split.
  - case_bool_decide as Hp.
    { apply append_empty_inv in Hp as [_ Hp].
      apply append_empty_inv in Hp as [_ Hp].
      apply append_empty_inv in Hp as [Hp _]. done. }
    replace (p +:+ "/" +:+ c +:+ t) with ((p +:+ "/" +:+ c) +:+ t)
      by (by rewrite !append_assoc).
    rewrite stripTrailing_trailing by done.
    rewrite <- append_assoc, stripTrailing_app, append_assoc by done.
    rewrite lastElement_app by done.
    by rewrite bool_decide_false.
  - case_bool_decide as Hp.
    { apply append_empty_inv in Hp as [Hp _]. done. }
    rewrite stripTrailing_trailing by done.
    rewrite stripTrailing_no_separator, lastElement_no_separator by done.
    by rewrite bool_decide_false.
Qed.

(** C10. With a configuration, [GetRtlfsDevices] never fails and never
    filters: it returns one assignment per directory, in input order; the
    assignment of a directory has the last element of its path as name
    (for a path [p/c] or [c], trailing separators aside, that is [c]), the
    path itself, mount check 0, the
    page size, verify-checksum and sync values of the configuration, the
    capacity cap exactly when [maxSize] is non-zero and the partition-level
    override exactly when [rtPLevelOverride] is non-zero; no directory
    gives the empty list. *)
Theorem C10_rtlfs_devices (directories : list Directory.t) (cfg : StoreConfig.t) :
  ∃ out,
    GetRtlfsDevices directories (Some cfg) = Returned out ∧
    length out = length directories ∧
    (directories = [] → out = []) ∧
    (∀ k dir, directories !! k = Some dir →
       ∃ dev, out !! k = Some dev ∧
         RtlfsDevice.Name dev = filepath.Base (Directory.Path dir) ∧
         (∀ p c t, Directory.Path dir = p +:+ "/" +:+ c +:+ t ∨
                      Directory.Path dir = c +:+ t →
                   c ≠ "" → filepath.hasSeparator c = false →
                   onlySeparators t = true →
                   RtlfsDevice.Name dev = c) ∧
         RtlfsDevice.Path dev = Directory.Path dir ∧
         RtlfsDevice.CheckMountpoint dev = 0%Z ∧
         RtlfsDevice.Psize dev = StoreConfig.LmdbPageSize cfg ∧
         RtlfsDevice.VerifyChid dev = StoreConfig.RtVerifyChid cfg ∧
         RtlfsDevice.Sync dev = StoreConfig.Sync cfg ∧
         (StoreConfig.MaxSize cfg ≠ 0%Z →
            RtlfsDevice.Maxsize dev = StoreConfig.MaxSize cfg) ∧
         (StoreConfig.MaxSize cfg = 0%Z → RtlfsDevice.Maxsize dev = 0%Z) ∧
         (StoreConfig.RtPLevelOverride cfg ≠ 0%Z →
            RtlfsDevice.PlevelOverride dev = StoreConfig.RtPLevelOverride cfg) ∧
         (StoreConfig.RtPLevelOverride cfg = 0%Z →
            RtlfsDevice.PlevelOverride dev = 0%Z)).
Proof.
  exists (rtlfs_device cfg <$> directories).
  split; [unfold GetRtlfsDevices; by rewrite rtlfs_loop|].
  split; [by rewrite length_fmap|].
  split; [by intros ->|].
  intros k dir Hk. exists (rtlfs_device cfg dir).
  split; [by rewrite list_lookup_fmap, Hk|].
  destruct (rtlfs_device_fields cfg dir)
    as (Hname & Hpath & Hcm & Hps & Hvc & Hsy & Hmax & Hpl).
  split; [done|]. split.
  { intros p c t Hsplit Hc Hsep Ht. rewrite Hname.
    destruct (Base_last_element p c t Hc Hsep Ht) as [H1 H2].
    by destruct Hsplit as [-> | ->]. }
  repeat split; try done; congruence.
Qed.

(** ** Name normalization *)

Lemma HasPrefix_spec s p : strings.HasPrefix s p = true ↔ ∃ t, s = p +:+ t.
Proof.
  unfold strings.HasPrefix. revert s. induction p as [|a p IH]; intros s.
  - split; [intros _; by exists s|by destruct s].
  - destruct s as [|b s]; simpl.
    + split; [done|]. intros [t Ht]. by rewrite append_cons in Ht.
    + destruct (ascii_dec a b) as [->|Hne].
      * rewrite IH. split; intros [t Ht]; exists t.
        -- by rewrite append_cons, Ht.
        -- rewrite append_cons in Ht. by injection Ht.
      * split; [done|]. intros [t Ht]. rewrite append_cons in Ht.
        injection Ht as Hab _. by destruct Hne.
Qed.

Lemma Index_unfold s sub :
  strings.Index s sub =
  if strings.HasPrefix s sub then Some 0
  else match s with
       | "" => None
       | String _ s' => S <$> strings.Index s' sub
       end.
Proof. by destruct s. Qed.

Lemma Index_Some s sub m :
  strings.Index s sub = Some m → ∃ a b, String.length a = m ∧ s = a +:+ sub +:+ b.
Proof.
  revert m. induction s as [|c s IH]; intros m; rewrite Index_unfold.
  - destruct (strings.HasPrefix "" sub) eqn:Hp; [|done].
    intros [= <-]. apply HasPrefix_spec in Hp as [t Ht]. by exists "", t.
  - destruct (strings.HasPrefix (String c s) sub) eqn:Hp.
    + intros [= <-]. apply HasPrefix_spec in Hp as [t Ht]. by exists "", t.
    + destruct (strings.Index s sub) as [m'|]; [|done]. intros [= <-].
      destruct (IH m' eq_refl) as (a & b & Hlen & ->).
      exists (String c a), b. split; [by rewrite <- Hlen|by rewrite append_cons].
Qed.

Lemma Index_occurs a sub b : is_Some (strings.Index (a +:+ sub +:+ b) sub).
Proof.
  induction a as [|c a IH].
  - rewrite append_nil, Index_unfold.
    assert (Hp : strings.HasPrefix (sub +:+ b) sub = true)
      by (apply HasPrefix_spec; by exists b).
    by rewrite Hp.
  - rewrite append_cons, Index_unfold.
    destruct (strings.HasPrefix _ sub); [done|].
    destruct IH as [m ->]. done.
Qed.

(** [strings.Contains] decides occurrence. *)
Lemma Contains_spec s sub : strings.Contains s sub = true ↔ occurs_in sub s.
Proof.
  unfold strings.Contains, occurs_in. rewrite bool_decide_eq_true. split.
  - intros [m Hm]. apply Index_Some in Hm as (a & b & _ & ->). by exists a, b.
  - intros (a & b & ->). apply Index_occurs.
Qed.

Lemma Contains_spec_false s sub : ¬ occurs_in sub s ↔ strings.Contains s sub = false.
Proof.
  rewrite <- Contains_spec. by destruct (strings.Contains s sub).
Qed.

(** *** [strings.Split] cuts at every separator *)

Lemma length_append s t : String.length (s +:+ t) = String.length s + String.length t.
Proof. induction s as [|a s IH]; [done|]. rewrite append_cons. simpl. by rewrite IH. Qed.

Lemma str_take_app a t : str_take (String.length a) (a +:+ t) = a.
Proof.
  induction a as [|c a IH]; [by destruct t|].
  rewrite append_cons. simpl. by rewrite IH.
Qed.

Lemma str_drop_app a t : str_drop (String.length a) (a +:+ t) = t.
Proof. induction a as [|c a IH]; [done|]. rewrite append_cons. simpl. apply IH. Qed.

Lemma Index_cut s sub m :
  strings.Index s sub = Some m →
  String.length (str_take m s) = m ∧
  s = str_take m s +:+ sub +:+ str_drop (m + String.length sub) s.
Proof.
  intros Hm. apply Index_Some in Hm as (a & b & <- & ->).
  rewrite str_take_app. split; [done|]. do 2 f_equal.
  rewrite <- length_append, <- append_assoc. by rewrite str_drop_app.
Qed.

(** [strings.Index] finds the leftmost occurrence. *)
Lemma Index_leftmost s sub m x y :
  strings.Index s sub = Some m → s = x +:+ sub +:+ y → m ≤ String.length x.
Proof.
  revert m x. induction s as [|c s IH]; intros m x; rewrite Index_unfold.
  - destruct (strings.HasPrefix "" sub); [|done]. intros [= <-] _. lia.
  - destruct (strings.HasPrefix (String c s) sub) eqn:Hp.
    { intros [= <-] _. lia. }
    destruct (strings.Index s sub) as [m'|] eqn:Hm'; [|done]. intros [= <-] Hs.
    destruct x as [|c' x].
    + rewrite append_nil in Hs.
      assert (strings.HasPrefix (String c s) sub = true)
        by (apply HasPrefix_spec; by exists y).
      congruence.
    + rewrite append_cons in Hs. injection Hs as _ Hs. simpl.
      apply le_n_S. by eapply IH.
Qed.

Lemma Index_None s sub : strings.Index s sub = None → ¬ occurs_in sub s.
Proof.
  intros Hn (a & b & ->). destruct (Index_occurs a sub b) as [m Hm]. congruence.
Qed.

Lemma genSplit_join n s sep :
  sep ≠ "" → String.length s ≤ n →
  String.concat sep (strings.genSplit n s sep) = s ∧
  (∀ piece, piece ∈ strings.genSplit n s sep → ¬ occurs_in sep piece).
Proof.
  intros Hsep. revert s. induction n as [|n IH]; intros s Hlen.
  - destruct s; [|simpl in Hlen; lia]. split; [done|].
    intros piece Hp. apply list_elem_of_singleton in Hp as ->.
    intros (a & b & Hab). symmetry in Hab.
    apply append_empty_inv in Hab as [_ Hab].
    apply append_empty_inv in Hab as [Hab _]. done.
  - cbn [strings.genSplit].
    destruct (strings.Index s sep) as [m|] eqn:Hm.
    2:{ split; [done|]. intros piece Hp.
        apply list_elem_of_singleton in Hp as ->. by apply Index_None. }
    destruct (Index_cut _ _ _ Hm) as [Htake Hcut].
    set (a := str_take m s) in *.
    set (b := str_drop (m + String.length sep) s) in *.
    assert (Hb : String.length b ≤ n).
    { apply (f_equal String.length) in Hcut.
      rewrite !length_append in Hcut.
      destruct sep; [done|]. simpl in Hcut. lia. }
    destruct (IH b Hb) as [Hjoin Hfree]. split.
    + cbn [String.concat].
      destruct (strings.genSplit n b sep) as [|p ps] eqn:Hg.
      { destruct n; simpl in Hg; [done|]. by destruct (strings.Index b sep). }
      fold (String.concat sep (p :: ps)). rewrite Hjoin. by rewrite Hcut.
    + intros piece Hp. apply elem_of_cons in Hp as [->|Hp]; [|by apply Hfree].
      intros (x & y & Hxy).
      assert (Hs : s = x +:+ sep +:+ (y +:+ sep +:+ b)).
      { rewrite Hcut, Hxy. by rewrite !append_assoc. }
      pose proof (Index_leftmost _ _ _ _ _ Hm Hs) as Hle.
      apply (f_equal String.length) in Hxy. rewrite Htake in Hxy.
      rewrite !length_append in Hxy.
      destruct sep; [done|]. simpl in Hxy. lia.
Qed.

(** The pieces hold no separator, and joined by it they give the string
    back. *)
Lemma Split_join s sep :
  sep ≠ "" →
  String.concat sep (strings.Split s sep) = s ∧
  (∀ piece, piece ∈ strings.Split s sep → ¬ occurs_in sep piece).
Proof. intros Hsep. by apply genSplit_join. Qed.

Lemma skipped_spec c :
  strings.Contains c "/" || strings.Contains c "wwn-" = true ↔ skipped c.
Proof.
  unfold skipped. rewrite orb_true_iff, !Contains_spec. done.
Qed.

Local Opaque strings.Replace strings.Contains.

Lemma getIdDevLinkName_loop_spec (dlsArr : list string) :
  let cands := (λ x, strings.Replace x "/dev/disk/by-id/" "" 1) <$> dlsArr in
  (∃ k c, cands !! k = Some c ∧ ¬ skipped c ∧
          (∀ k' c', k' < k → cands !! k' = Some c' → skipped c') ∧
          getIdDevLinkName_loop dlsArr = c) ∨
  ((∀ c, c ∈ cands → skipped c) ∧ getIdDevLinkName_loop dlsArr = "").
Proof.
  induction dlsArr as [|x rest IH]; intros cands.
  - right. split; [|done]. intros c Hc. by apply elem_of_nil in Hc.
  - subst cands. csimpl.
    set (s := strings.Replace x "/dev/disk/by-id/" "" 1).
    destruct (strings.Contains s "/" || strings.Contains s "wwn-") eqn:Hskip.
    + apply skipped_spec in Hskip.
      destruct IH as [(k & c & Hk & Hc & Hbefore & Hres)|[Hall Hres]].
      * left. exists (S k), c. split; [done|]. split; [done|]. split; [|done].
        intros [|k'] c' Hlt Hk'.
        -- simpl in Hk'. by injection Hk' as <-.
        -- simpl in Hk'. eapply Hbefore; [|done]. lia.
      * right. split; [|done]. intros c Hc.
        apply elem_of_cons in Hc as [->|Hc]; [done|by apply Hall].
    + left. exists 0, s. split; [done|]. split.
      * intros Hs. apply skipped_spec in Hs. congruence.
      * split; [|done]. intros k' c' Hlt. lia.
Qed.

Local Transparent strings.Replace strings.Contains.

(** C5, as the code has it. The candidates are the pieces of the link
    string between single spaces (no piece holds a space, and the pieces
    joined by spaces are the string), each with its first
    ["/dev/disk/by-id/"] removed. Name normalization returns the first
    candidate in which neither a path separator nor the text [wwn-] occurs
    anywhere, all the candidates before it having one of the two; when
    every candidate has one of the two it returns the empty string. For
    the link string
    ["/dev/disk/by-id/wwn-0x123 /dev/disk/by-id/ata-X nested/path-Y"] the
    result is ["ata-X"]. *)
Theorem C5_name_normalization (dls : string) :
  candidates dls =
    (λ x, strings.Replace x "/dev/disk/by-id/" "" 1) <$> strings.Split dls " " ∧
  String.concat " " (strings.Split dls " ") = dls ∧
  (∀ piece, piece ∈ strings.Split dls " " → ¬ occurs_in " " piece) ∧
  ((∃ k c, candidates dls !! k = Some c ∧
           ¬ occurs_in "/" c ∧ ¬ occurs_in "wwn-" c ∧
           (∀ k' c', k' < k → candidates dls !! k' = Some c' →
                     occurs_in "/" c' ∨ occurs_in "wwn-" c') ∧
           getIdDevLinkName dls = c) ∨
   ((∀ c, c ∈ candidates dls → occurs_in "/" c ∨ occurs_in "wwn-" c) ∧
    getIdDevLinkName dls = "")) ∧
  getIdDevLinkName "/dev/disk/by-id/wwn-0x123 /dev/disk/by-id/ata-X nested/path-Y"
    = "ata-X".
Proof.
  split; [done|].
  destruct (Split_join dls " " ltac:(done)) as [Hjoin Hfree].
  split; [done|]. split; [done|].
  split; [|vm_compute; reflexivity].
  unfold getIdDevLinkName, candidates.
  destruct (getIdDevLinkName_loop_spec (strings.Split dls " "))
    as [(k & c & Hk & Hc & Hbefore & Hres)|[Hall Hres]].
  - left. exists k, c. split; [done|].
    unfold skipped in Hc. split; [tauto|]. split; [tauto|]. done.
  - by right.
Qed.

(** C5 as stated fails: a first candidate that has no path separator and
    does not start with [wwn-], but has [wwn-] inside, is skipped. *)
Lemma C5_counterexample :
  candidates "scsi-wwn-1 ata-X" = ["scsi-wwn-1"; "ata-X"] ∧
  strings.Contains "scsi-wwn-1" "/" = false ∧
  strings.HasPrefix "scsi-wwn-1" "wwn-" = false ∧
  first_without_wwn_prefix "scsi-wwn-1 ata-X" = "scsi-wwn-1" ∧
  getIdDevLinkName "scsi-wwn-1 ata-X" = "ata-X" ∧
  getIdDevLinkName "scsi-wwn-1 ata-X" ≠ first_without_wwn_prefix "scsi-wwn-1 ata-X".
Proof. vm_compute. repeat split. discriminate. Qed.

(** * Further properties of the planner *)

(** ** The classifier's three views *)

Lemma eligible_split_length (nodeDisks : list LocalDisk.t) :
  length (List.filter eligible nodeDisks) =
  length (List.filter eligible_ssd nodeDisks) +
  length (List.filter eligible_hdd nodeDisks).
Proof.
  induction nodeDisks as [|d l IH]; [done|]. simpl.
  unfold eligible_ssd, eligible_hdd in *.
  destruct (eligible d); simpl; [|done].
  destruct (LocalDisk.Rotational d); simpl; lia.
Qed.

(** X1. The classifier loop keeps the discovery order and drops nothing
    but ineligible disks: the combined view is the eligible disks, the
    rotational view is the rotational disks of the combined view, the
    solid-state view is its other disks, and the two views together have
    as many disks as the combined one. *)
Theorem X1_classify_views (nodeDisks : list LocalDisk.t) :
  let b := classify nodeDisks in
  Buckets.devices b = List.filter eligible nodeDisks ∧
  Buckets.hdds b = List.filter LocalDisk.Rotational (Buckets.devices b) ∧
  Buckets.ssds b = List.filter (λ d, negb (LocalDisk.Rotational d)) (Buckets.devices b) ∧
  length (Buckets.devices b) = length (Buckets.ssds b) + length (Buckets.hdds b) ∧
  length (Buckets.devices b) ≤ length nodeDisks.
Proof.
  intros b. subst b. rewrite classify_filter.
  cbn [Buckets.ssds Buckets.hdds Buckets.devices].
  rewrite !filter_filter.
  split; [done|]. split; [done|]. split; [done|]. split.
  - apply eligible_split_length.
  - apply List.filter_length_le.
Qed.

(** ** Results of [GetRTDevices] *)

(** X2. [GetRTDevices] returns for every disk list and every
    configuration, missing or not: the read of [ssds[i]] in the hybrid
    loops is always in range. *)
Theorem X2_GetRTDevices_returns (nodeDisks : list LocalDisk.t)
    (storeConfig : option StoreConfig.t) :
  ∃ r, GetRTDevices nodeDisks storeConfig = Returned r.
Proof.
  destruct storeConfig as [cfg|]; [|by eexists].
  rewrite GetRTDevices_layout. by eexists.
Qed.

Lemma layout_error cfg ssds hdds :
  RTResult.err (layout cfg ssds hdds) ≠ None →
  RTResult.rtDevices (layout cfg ssds hdds) = [] ∧
  RTResult.stdout (layout cfg ssds hdds) = [].
Proof.
  unfold layout.
  destruct (StoreConfig.UseAllSSD cfg).
  { by destruct (length ssds =? 0). }
  destruct (length hdds =? 0); [done|].
  destruct (negb (StoreConfig.UseMetadataOffload cfg)); [done|].
  by destruct ((length hdds <? length ssds) || (length ssds =? 0)).
Qed.

(** X3. Whenever [GetRTDevices] returns an error it returns no
    assignment with it and has printed nothing. *)
Theorem X3_error_has_no_devices (nodeDisks : list LocalDisk.t)
    (storeConfig : option StoreConfig.t) (r : RTResult.t) :
  GetRTDevices nodeDisks storeConfig = Returned r →
  RTResult.err r ≠ None →
  RTResult.rtDevices r = [] ∧ RTResult.stdout r = [].
Proof.
  destruct storeConfig as [cfg|]; [|by intros [= <-]].
  rewrite GetRTDevices_layout. intros [= <-].
  destruct (length nodeDisks =? 0); [done|]. apply layout_error.
Qed.

Lemma X3_error_has_no_devices_witness :
  ∃ r, GetRTDevices [disk "sda" "ata-A" true]
         (Some (sample_config true false false false)) = Returned r ∧
       RTResult.err r ≠ None ∧
       RTResult.rtDevices r = [] ∧ RTResult.stdout r = [].
Proof.
  exists (RTResult.mk [] (Some (Errorf "No SSD/NVMe media found")) []).
  assert (Hrun : GetRTDevices [disk "sda" "ata-A" true]
                   (Some (sample_config true false false false)) =
                 Returned (RTResult.mk [] (Some (Errorf "No SSD/NVMe media found")) []))
    by (vm_compute; reflexivity).
  assert (Herr : RTResult.err
                   (RTResult.mk [] (Some (Errorf "No SSD/NVMe media found")) []) ≠ None)
    by discriminate.
  split; [exact Hrun|]. split; [exact Herr|].
  exact (X3_error_has_no_devices _ _ _ Hrun Herr).
Defined.

Lemma length_zero_false {A} (l : list A) : (length l =? 0) = false ↔ l ≠ [].
Proof. destruct l; simpl; split; try done. Qed.

(** X4. With a configuration, [GetRTDevices] succeeds exactly when the
    disk list is empty, or the all-solid-state policy finds an eligible
    solid-state disk, or the other policies find an eligible rotational
    disk and, if metadata offload is requested, at least one eligible
    solid-state disk and no more of them than eligible rotational disks. *)
Theorem X4_success_condition (nodeDisks : list LocalDisk.t) (cfg : StoreConfig.t) :
  let ssds := List.filter eligible_ssd nodeDisks in
  let hdds := List.filter eligible_hdd nodeDisks in
  ∃ r, GetRTDevices nodeDisks (Some cfg) = Returned r ∧
    (RTResult.err r = None ↔
       nodeDisks = [] ∨
       (StoreConfig.UseAllSSD cfg = true ∧ ssds ≠ []) ∨
       (StoreConfig.UseAllSSD cfg = false ∧ hdds ≠ [] ∧
        (StoreConfig.UseMetadataOffload cfg = false ∨
         1 ≤ length ssds ∧ length ssds ≤ length hdds))).
Proof.
  intros ssds hdds. rewrite GetRTDevices_layout. eexists. split; [done|].
  destruct nodeDisks as [|d0 l]; [simpl; tauto|].
  set (nodeDisks := d0 :: l) in *.
  change (length nodeDisks =? 0) with false. cbv iota.
  assert (Hne : nodeDisks ≠ []) by done.
  unfold layout, empty_result. fold ssds hdds.
  destruct (StoreConfig.UseAllSSD cfg).
  { destruct (length ssds =? 0) eqn:Hs; simpl.
    - apply Nat.eqb_eq, length_zero_iff_nil in Hs. split; [done|].
      intros [?|[[_ ?]|[? _]]]; done.
    - apply length_zero_false in Hs. split; [|done]. intros _. right. by left. }
  destruct (length hdds =? 0) eqn:Hh; simpl.
  { apply Nat.eqb_eq, length_zero_iff_nil in Hh. split; [done|].
    intros [?|[[? _]|[_ [? _]]]]; done. }
  apply length_zero_false in Hh.
  destruct (StoreConfig.UseMetadataOffload cfg); simpl.
  2:{ split; [|done]. intros _. right. right. split; [done|]. split; [done|]. by left. }
  destruct (Nat.ltb_spec (length hdds) (length ssds)); simpl.
  { split; [done|]. intros [?|[[? _]|(_ & _ & [?|[_ ?]])]]; try done. lia. }
  destruct (Nat.eqb_spec (length ssds) 0); simpl.
  { split; [done|]. intros [?|[[? _]|(_ & _ & [?|[? _]])]]; try done. lia. }
  split; [|done]. intros _. right. right. split; [done|]. split; [done|].
  right. lia.
Qed.

Lemma layout_length cfg ssds hdds :
  length (RTResult.rtDevices (layout cfg ssds hdds)) ≤ length ssds + length hdds ∧
  (RTResult.err (layout cfg ssds hdds) = None →
   RTResult.rtDevices (layout cfg ssds hdds) ≠ []).
Proof.
  unfold layout, empty_result.
  destruct (StoreConfig.UseAllSSD cfg).
  { destruct (length ssds =? 0) eqn:Hs; simpl; [split; [lia|done]|].
    rewrite length_fmap. split; [lia|]. intros _.
    apply length_zero_false in Hs. by destruct ssds. }
  destruct (length hdds =? 0) eqn:Hh; simpl; [split; [lia|done]|].
  apply length_zero_false in Hh.
  destruct (StoreConfig.UseMetadataOffload cfg); simpl.
  2:{ rewrite length_fmap. split; [lia|]. intros _. by destruct hdds. }
  destruct (Nat.ltb_spec (length hdds) (length ssds)); simpl; [split; [lia|done]|].
  destruct (Nat.eqb_spec (length ssds) 0); simpl; [split; [lia|done]|].
  rewrite <- length_zero_iff_nil.
  rewrite hybrid_flat_length by (rewrite divide_loop_length; lia).
  rewrite divide_loop_concat by lia.
  split; [lia|]. intros _. destruct hdds; [done|]. simpl. lia.
Qed.

(** X5. [GetRTDevices] never returns more assignments than there are
    eligible disks, and a success on a non-empty disk list always holds at
    least one assignment. *)
Theorem X5_output_size (nodeDisks : list LocalDisk.t) (cfg : StoreConfig.t) :
  ∃ r, GetRTDevices nodeDisks (Some cfg) = Returned r ∧
    length (RTResult.rtDevices r) ≤ length (List.filter eligible nodeDisks) ∧
    length (RTResult.rtDevices r) ≤ length nodeDisks ∧
    (nodeDisks ≠ [] → RTResult.err r = None → RTResult.rtDevices r ≠ []).
Proof.
  rewrite GetRTDevices_layout. eexists. split; [done|].
  pose proof (eligible_split_length nodeDisks) as Hsum.
  pose proof (List.filter_length_le eligible nodeDisks) as Hle.
  destruct (length nodeDisks =? 0) eqn:Hz.
  { split; [simpl; lia|]. split; [simpl; lia|].
    apply Nat.eqb_eq, length_zero_iff_nil in Hz. done. }
  destruct (layout_length cfg (List.filter eligible_ssd nodeDisks)
              (List.filter eligible_hdd nodeDisks)) as [Hlen Hne].
  split; [lia|]. split; [lia|]. intros _. apply Hne.
Qed.

(** What [%d] prints for a length reads back as that length. *)
Lemma itoa_reads_back n :
  Nat.of_uint <$> NilZero.uint_of_string (itoa n) = Some n.
Proof.
  unfold itoa. rewrite NilZero.usu.
  - simpl. f_equal. apply DecimalNat.Unsigned.of_to.
  - intros Hnil. pose proof (f_equal Nat.of_uint Hnil) as Hz.
    rewrite DecimalNat.Unsigned.of_to in Hz. simpl in Hz. subst n. done.
Qed.

(** X6. Under the hybrid policy with at least one eligible rotational
    disk, having no eligible solid-state disk, or more of them than
    eligible rotational disks, gives the error whose message names both
    counts in decimal, "Confusing use of useMetadataOffload parameter
    HDDs(h) < SSDs(s)" followed by a newline, also when s is 0. *)
Theorem X6_hybrid_count_mismatch (nodeDisks : list LocalDisk.t) (cfg : StoreConfig.t) :
  let ssds := List.filter eligible_ssd nodeDisks in
  let hdds := List.filter eligible_hdd nodeDisks in
  StoreConfig.UseAllSSD cfg = false →
  StoreConfig.UseMetadataOffload cfg = true →
  hdds ≠ [] →
  length hdds < length ssds ∨ ssds = [] →
  GetRTDevices nodeDisks (Some cfg) =
    Returned (RTResult.mk []
      (Some (Errorf ("Confusing use of useMetadataOffload parameter HDDs("
                     +:+ itoa (length hdds) +:+ ") < SSDs("
                     +:+ itoa (length ssds) +:+ ")" +:+ newline))) []) ∧
  Nat.of_uint <$> NilZero.uint_of_string (itoa (length hdds)) = Some (length hdds) ∧
  Nat.of_uint <$> NilZero.uint_of_string (itoa (length ssds)) = Some (length ssds).
Proof.
  intros ssds hdds Hall Hoff Hh Hbad.
  split; [|split; apply itoa_reads_back].
  assert (Hne : nodeDisks ≠ []) by (intros ->; by apply Hh).
  rewrite GetRTDevices_layout, nonempty_length by done.
  unfold layout, empty_result. fold ssds hdds.
  rewrite Hall, Hoff, (nonempty_length hdds) by done. simpl negb. cbv iota.
  destruct (Nat.ltb_spec (length hdds) (length ssds)); [done|].
  destruct Hbad as [?|Hs]; [lia|]. by rewrite Hs.
Qed.

Lemma X6_hybrid_count_mismatch_witness :
  GetRTDevices [disk "sda" "ata-A" true; disk "sdb" "ata-B" true]
    (Some (sample_config false true false false)) =
  Returned (RTResult.mk []
    (Some (Errorf ("Confusing use of useMetadataOffload parameter HDDs(2) < SSDs(0)"
                   +:+ newline))) []).
Proof.
  exact (proj1 (X6_hybrid_count_mismatch
                  [disk "sda" "ata-A" true; disk "sdb" "ata-B" true]
                  (sample_config false true false false)
                  eq_refl eq_refl ltac:(discriminate) (or_intror eq_refl))).
Defined.

Lemma layout_elem_record cfg ssds hdds rt :
  rt ∈ RTResult.rtDevices (layout cfg ssds hdds) →
  (∃ d, rt = plain_rtdev cfg d ∧
        (StoreConfig.UseAllSSD cfg = true ∨
         StoreConfig.UseMetadataOffload cfg = false)) ∨
  (∃ d ssd, rt = hybrid_rtdev cfg d ssd ∧
            StoreConfig.UseAllSSD cfg = false ∧
            StoreConfig.UseMetadataOffload cfg = true).
Proof.
  unfold layout. intros Hin.
  destruct (StoreConfig.UseAllSSD cfg).
  { destruct (length ssds =? 0); [by apply elem_of_nil in Hin|].
    apply list_elem_of_fmap in Hin as (d & -> & _). left. exists d. auto. }
  destruct (length hdds =? 0); [by apply elem_of_nil in Hin|].
  destruct (StoreConfig.UseMetadataOffload cfg); simpl negb in Hin; cbv iota in Hin.
  2:{ apply list_elem_of_fmap in Hin as (d & -> & _). left. exists d. auto. }
  destruct ((length hdds <? length ssds) || (length ssds =? 0));
    [by apply elem_of_nil in Hin|].
  simpl in Hin. apply hybrid_flat_elem in Hin as (d & ssd & _ & _ & ->).
  right. by exists d, ssd.
Qed.

Lemma GetRTDevices_elem_record nodeDisks cfg r rt :
  GetRTDevices nodeDisks (Some cfg) = Returned r →
  rt ∈ RTResult.rtDevices r →
  (∃ d, rt = plain_rtdev cfg d ∧
        (StoreConfig.UseAllSSD cfg = true ∨
         StoreConfig.UseMetadataOffload cfg = false)) ∨
  (∃ d ssd, rt = hybrid_rtdev cfg d ssd ∧
            StoreConfig.UseAllSSD cfg = false ∧
            StoreConfig.UseMetadataOffload cfg = true).
Proof.
  rewrite GetRTDevices_layout. intros [= <-] Hin.
  destruct (length nodeDisks =? 0); [by apply elem_of_nil in Hin|].
  by apply layout_elem_record in Hin.
Qed.

Lemma hybrid_rtdev_passthrough cfg d ssd :
  RTDevice.Psize (hybrid_rtdev cfg d ssd) = StoreConfig.LmdbPageSize cfg ∧
  RTDevice.VerifyChid (hybrid_rtdev cfg d ssd) = StoreConfig.RtVerifyChid cfg ∧
  RTDevice.Sync (hybrid_rtdev cfg d ssd) = StoreConfig.Sync cfg ∧
  RTDevice.PlevelOverride (hybrid_rtdev cfg d ssd) = StoreConfig.RtPLevelOverride cfg.
Proof.
  unfold hybrid_rtdev.
  destruct (StoreConfig.UseBCache cfg), (StoreConfig.UseBCacheWB cfg);
    case_bool_decide as Hp; simpl; repeat split; by rewrite ?Hp.
Qed.

(** X7. Under every policy, each assignment [GetRTDevices] returns carries
    the page size, the verify-checksum flag and the sync flag of the
    configuration, and its partition-level override is the configured one
    (zero when none is configured). *)
Theorem X7_passthrough_fields (nodeDisks : list LocalDisk.t) (cfg : StoreConfig.t)
    (r : RTResult.t) (rt : RTDevice.t) :
  GetRTDevices nodeDisks (Some cfg) = Returned r →
  rt ∈ RTResult.rtDevices r →
  RTDevice.Psize rt = StoreConfig.LmdbPageSize cfg ∧
  RTDevice.VerifyChid rt = StoreConfig.RtVerifyChid cfg ∧
  RTDevice.Sync rt = StoreConfig.Sync cfg ∧
  RTDevice.PlevelOverride rt = StoreConfig.RtPLevelOverride cfg.
Proof.
  intros Hrun Hin.
  destruct (GetRTDevices_elem_record _ _ _ _ Hrun Hin)
    as [(d & -> & _)|(d & ssd & -> & _)].
  - destruct (plain_rtdev_fields cfg d) as (_ & _ & ? & ? & ? & ?). done.
  - apply hybrid_rtdev_passthrough.
Qed.

Lemma X7_passthrough_fields_witness :
  let r := layout (StoreConfig.mk false true true false 8192%Z true true 3%Z 0%Z "0xff")
             (List.filter eligible_ssd sample_disks)
             (List.filter eligible_hdd sample_disks) in
  let rt := hybrid_rtdev (StoreConfig.mk false true true false 8192%Z true true 3%Z 0%Z "0xff")
              (disk "sda" "/dev/disk/by-id/wwn-0x5000a /dev/disk/by-id/ata-A" true)
              (disk "nvme0n1" "/dev/disk/by-id/nvme-N0" false) in
  rt ∈ RTResult.rtDevices r ∧
  RTDevice.Psize rt = 8192%Z ∧ RTDevice.VerifyChid rt = true ∧
  RTDevice.Sync rt = true ∧ RTDevice.PlevelOverride rt = 3%Z.
Proof.
  intros r rt.
  assert (Hrun : GetRTDevices sample_disks
                   (Some (StoreConfig.mk false true true false 8192%Z true true 3%Z 0%Z "0xff"))
                 = Returned r) by (vm_compute; reflexivity).
  assert (Hin : rt ∈ RTResult.rtDevices r) by (vm_compute; apply list_elem_of_here).
  split; [exact Hin|].
  exact (X7_passthrough_fields _ _ _ _ Hrun Hin).
Defined.

(** X8. Outside the hybrid policy no cache, journal or metadata field is
    set, whatever [useBCache], [useBCacheWB] and the mask say: under the
    all-solid-state and the all-rotational policies every assignment has
    an empty journal, an empty metadata identifier, cache 0 and
    write-around 0. *)
Theorem X8_plain_policies_leave_cache_fields (nodeDisks : list LocalDisk.t)
    (cfg : StoreConfig.t) (r : RTResult.t) (rt : RTDevice.t) :
  StoreConfig.UseAllSSD cfg = true ∨ StoreConfig.UseMetadataOffload cfg = false →
  GetRTDevices nodeDisks (Some cfg) = Returned r →
  rt ∈ RTResult.rtDevices r →
  RTDevice.Journal rt = "" ∧ RTDevice.Metadata rt = "" ∧
  RTDevice.Bcache rt = 0%Z ∧ RTDevice.BcacheWritearound rt = 0%Z.
Proof.
  intros Hpol Hrun Hin.
  destruct (GetRTDevices_elem_record _ _ _ _ Hrun Hin)
    as [(d & -> & _)|(d & ssd & _ & Hall & Hoff)].
  - unfold plain_rtdev. by case_bool_decide.
  - destruct Hpol; congruence.
Qed.

Lemma X8_plain_policies_leave_cache_fields_witness :
  let r := layout (sample_config false false true true)
             (List.filter eligible_ssd sample_disks)
             (List.filter eligible_hdd sample_disks) in
  let rt := plain_rtdev (sample_config false false true true)
              (disk "sda" "/dev/disk/by-id/wwn-0x5000a /dev/disk/by-id/ata-A" true) in
  rt ∈ RTResult.rtDevices r ∧
  RTDevice.Journal rt = "" ∧ RTDevice.Metadata rt = "" ∧
  RTDevice.Bcache rt = 0%Z ∧ RTDevice.BcacheWritearound rt = 0%Z.
Proof.
  intros r rt.
  assert (Hrun : GetRTDevices sample_disks (Some (sample_config false false true true))
                 = Returned r) by (vm_compute; reflexivity).
  assert (Hin : rt ∈ RTResult.rtDevices r) by (vm_compute; apply list_elem_of_here).
  split; [exact Hin|].
  exact (X8_plain_policies_leave_cache_fields sample_disks
           (sample_config false false true true) r rt (or_intror eq_refl) Hrun Hin).
Defined.

(** X9. The only line [GetRTDevices] ever prints is the warning that
    metadata offload is ignored; it prints it exactly when the
    all-solid-state policy succeeds with [useMetadataOffload] set, and the
    assignments are then the ones it returns with the flag off. *)
Theorem X9_offload_warning (nodeDisks : list LocalDisk.t) (cfg : StoreConfig.t) :
  let cfg_off :=
    StoreConfig.mk (StoreConfig.UseAllSSD cfg) false
      (StoreConfig.UseBCache cfg) (StoreConfig.UseBCacheWB cfg)
      (StoreConfig.LmdbPageSize cfg) (StoreConfig.RtVerifyChid cfg)
      (StoreConfig.Sync cfg) (StoreConfig.RtPLevelOverride cfg)
      (StoreConfig.MaxSize cfg) (StoreConfig.UseMetadataMask cfg) in
  ∃ r r_off,
    GetRTDevices nodeDisks (Some cfg) = Returned r ∧
    GetRTDevices nodeDisks (Some cfg_off) = Returned r_off ∧
    (RTResult.stdout r = [] ∨ RTResult.stdout r = [warning_ignored]) ∧
    (RTResult.stdout r = [warning_ignored] ↔
       StoreConfig.UseAllSSD cfg = true ∧
       StoreConfig.UseMetadataOffload cfg = true ∧
       List.filter eligible_ssd nodeDisks ≠ []) ∧
    (StoreConfig.UseAllSSD cfg = true →
       RTResult.rtDevices r = RTResult.rtDevices r_off ∧
       RTResult.err r = RTResult.err r_off).
Proof.
  intros cfg_off. rewrite !GetRTDevices_layout. eexists _, _.
  split; [done|]. split; [done|].
  destruct nodeDisks as [|d0 l].
  { simpl. split; [by left|]. split; [|done]. split; [done|]. by intros (_ & _ & ?). }
  set (nodeDisks := d0 :: l) in *.
  change (length nodeDisks =? 0) with false. cbv iota.
  unfold layout, empty_result. subst cfg_off. cbn [StoreConfig.UseAllSSD
    StoreConfig.UseMetadataOffload].
  set (ssds := List.filter eligible_ssd nodeDisks).
  set (hdds := List.filter eligible_hdd nodeDisks).
  destruct (StoreConfig.UseAllSSD cfg).
  { destruct (length ssds =? 0) eqn:Hs; simpl.
    - apply Nat.eqb_eq, length_zero_iff_nil in Hs.
      split; [by left|]. split; [|done]. split; [done|]. by intros (_ & _ & ?).
    - apply length_zero_false in Hs.
      destruct (StoreConfig.UseMetadataOffload cfg); simpl.
      + split; [by right|]. split; [done|]. intros _. split; [|done].
        apply list_fmap_ext. intros _ d _. unfold plain_rtdev. simpl. done.
      + split; [by left|]. split; [|intros _; split; [|done]].
        * split; [done|]. by intros (_ & ? & _).
        * apply list_fmap_ext. intros _ d _. unfold plain_rtdev. simpl. done. }
  split; [|split; [|done]].
  - left. destruct (length hdds =? 0); [done|].
    destruct (negb (StoreConfig.UseMetadataOffload cfg)); [done|].
    by destruct ((length hdds <? length ssds) || (length ssds =? 0)).
  - split; [|by intros (? & _)].
    destruct (length hdds =? 0); [done|].
    destruct (negb (StoreConfig.UseMetadataOffload cfg)); [done|].
    by destruct ((length hdds <? length ssds) || (length ssds =? 0)).
Qed.

(** ** More on the hybrid policy *)

Lemma chunk_size_next_mod len i :
  0 < i →
  (len - chunk_size len (S i)) mod i = len mod S i - 1.
Proof.
  intros Hi.
  pose proof (Nat.div_mod_eq len (S i)) as Hdm.
  pose proof (Nat.mod_upper_bound len (S i) ltac:(lia)) as Hm.
  set (q := len / S i) in *. set (m := len mod S i) in *.
  destruct (chunk_size_cases len (S i) ltac:(lia)) as [[Hz Hc]|[Hp Hc]];
    fold q m in Hz, Hc || fold q m in Hp, Hc.
  - symmetry. apply (Nat.mod_unique _ _ q); [lia|nia].
  - symmetry. apply (Nat.mod_unique _ _ q); [lia|nia].
Qed.

(** The size of each group in closed form. *)
Lemma divide_loop_size i hdds a g :
  divide_loop i [] hdds !! a = Some g →
  length g = length hdds / i + (if a <? length hdds mod i then 1 else 0).
Proof.
  revert hdds a. induction i as [|i IH]; intros hdds a Hg; [done|].
  rewrite divide_loop_S in Hg.
  pose proof (chunk_size_le (length hdds) (S i) ltac:(lia)) as Hle.
  destruct a as [|a]; cbn [lookup list_lookup] in Hg.
  - injection Hg as <-. rewrite length_take.
    destruct (chunk_size_cases (length hdds) (S i) ltac:(lia)) as [[Hz Hc]|[Hp Hc]].
    + rewrite Hz. change (0 <? 0) with false. cbv iota. lia.
    + destruct (Nat.ltb_spec 0 (length hdds mod S i)); lia.
  - destruct i as [|i]; [done|].
    apply IH in Hg. rewrite length_drop in Hg.
    destruct (chunk_size_next (length hdds) (S i) ltac:(lia)) as [Hq _].
    rewrite Hq, chunk_size_next_mod in Hg by lia. rewrite Hg. f_equal.
    destruct (Nat.ltb_spec a (length hdds mod S (S i) - 1)),
             (Nat.ltb_spec (S a) (length hdds mod S (S i))); lia.
Qed.

Lemma hybrid_flat_fmap cfg ssds (f : RTDevice.t → string) (h : LocalDisk.t → string)
    i groups :
  (∀ d ssd, f (hybrid_rtdev cfg d ssd) = h d) →
  i + length groups ≤ length ssds →
  f <$> hybrid_flat cfg ssds i groups = h <$> concat groups.
Proof.
  intros Hfh. revert i.
  induction groups as [|g gs IH]; intros i Hlen; [done|]. simpl in Hlen.
  destruct (lookup_lt_is_Some_2 ssds i ltac:(lia)) as [ssd Hssd].
  simpl. rewrite Hssd, !fmap_app, IH by lia. f_equal.
  rewrite <- list_fmap_compose. apply list_fmap_ext. intros _ d _. apply Hfh.
Qed.

(** X10. Under the hybrid policy, when it succeeds, the assignments
    follow the eligible rotational disks in discovery order, one for each:
    their device paths are [/dev/] followed by the kernel names of those
    disks and their names are the normalized link names of those disks,
    in that order. *)
Theorem X10_hybrid_keeps_discovery_order (nodeDisks : list LocalDisk.t)
    (cfg : StoreConfig.t) :
  let ssds := List.filter eligible_ssd nodeDisks in
  let hdds := List.filter eligible_hdd nodeDisks in
  StoreConfig.UseAllSSD cfg = false →
  StoreConfig.UseMetadataOffload cfg = true →
  1 ≤ length ssds →
  length ssds ≤ length hdds →
  ∃ r, GetRTDevices nodeDisks (Some cfg) = Returned r ∧
       RTResult.err r = None ∧
       RTDevice.Device <$> RTResult.rtDevices r =
         (λ d, "/dev/" +:+ LocalDisk.Name d) <$> hdds ∧
       RTDevice.Name <$> RTResult.rtDevices r =
         (λ d, getIdDevLinkName (LocalDisk.DevLinks d)) <$> hdds.
Proof.
  intros ssds hdds Hall Hoff Hs Hh.
  eexists. split; [by apply GetRTDevices_hybrid|]. split; [done|].
  cbn [RTResult.rtDevices]. fold ssds hdds.
  rewrite <- (divide_loop_concat (length ssds) hdds) at 2 4 by lia.
  split; apply hybrid_flat_fmap; try (rewrite divide_loop_length; lia);
    intros d ssd; apply hybrid_rtdev_fields.
Qed.

Lemma X10_hybrid_keeps_discovery_order_witness :
  ∃ r, GetRTDevices sample_disks (Some hybrid_config) = Returned r ∧
       RTDevice.Device <$> RTResult.rtDevices r = ["/dev/sda"; "/dev/sdb"; "/dev/sdc"] ∧
       RTDevice.Name <$> RTResult.rtDevices r = ["ata-A"; "ata-B"; "ata-C"].
Proof.
  destruct (X10_hybrid_keeps_discovery_order sample_disks hybrid_config
              eq_refl eq_refl ltac:(vm_compute; lia) ltac:(vm_compute; lia))
    as (r & Hrun & _ & Hdev & Hname).
  exists r. split; [exact Hrun|]. rewrite Hdev, Hname.
  split; vm_compute; reflexivity.
Defined.

(** X11. Under the hybrid policy, when it succeeds, no solid-state disk
    is left idle and no journal comes from elsewhere: every eligible
    solid-state disk is the journal and metadata target of at least one
    assignment, and the journal and metadata of every assignment are those
    of one eligible solid-state disk. *)
Theorem X11_hybrid_uses_every_ssd (nodeDisks : list LocalDisk.t) (cfg : StoreConfig.t) :
  let ssds := List.filter eligible_ssd nodeDisks in
  let hdds := List.filter eligible_hdd nodeDisks in
  StoreConfig.UseAllSSD cfg = false →
  StoreConfig.UseMetadataOffload cfg = true →
  1 ≤ length ssds →
  length ssds ≤ length hdds →
  ∃ r, GetRTDevices nodeDisks (Some cfg) = Returned r ∧
    (∀ ssd, ssd ∈ ssds →
       ∃ rt, rt ∈ RTResult.rtDevices r ∧
             RTDevice.Journal rt = getIdDevLinkName (LocalDisk.DevLinks ssd) ∧
             RTDevice.Metadata rt =
               getIdDevLinkName (LocalDisk.DevLinks ssd) +:+ "," +:+
               StoreConfig.UseMetadataMask cfg) ∧
    (∀ rt, rt ∈ RTResult.rtDevices r →
       ∃ ssd, ssd ∈ ssds ∧
              RTDevice.Journal rt = getIdDevLinkName (LocalDisk.DevLinks ssd) ∧
              RTDevice.Metadata rt =
                getIdDevLinkName (LocalDisk.DevLinks ssd) +:+ "," +:+
                StoreConfig.UseMetadataMask cfg).
Proof.
  intros ssds hdds Hall Hoff Hs Hh.
  set (groups := divide_loop (length ssds) [] hdds).
  assert (Hlen : length groups = length ssds) by apply divide_loop_length.
  eexists. split; [by apply GetRTDevices_hybrid|].
  cbn [RTResult.rtDevices]. fold ssds hdds groups. split.
  - intros ssd Hssd. apply list_elem_of_lookup in Hssd as [i Hi].
    pose proof (lookup_lt_Some _ _ _ Hi) as Hlt.
    destruct (lookup_lt_is_Some_2 groups i ltac:(lia)) as [g Hg].
    assert (Hpos : 1 ≤ length g).
    { pose proof (divide_loop_bounds (length ssds) hdds g ltac:(lia)
                    (list_elem_of_lookup_2 _ _ _ Hg)) as [Hlo _].
      pose proof (Nat.div_le_lower_bound (length hdds) (length ssds) 1
                    ltac:(lia) ltac:(lia)). lia. }
    destruct (lookup_lt_is_Some_2 g 0 ltac:(lia)) as [d Hd].
    destruct (hybrid_flat_lookup cfg ssds 0 groups i g 0 d ltac:(lia) Hg Hd)
      as (ssd' & Hssd' & Hlook).
    simpl in Hssd'. rewrite Hi in Hssd'. injection Hssd' as <-.
    exists (hybrid_rtdev cfg d ssd).
    split; [by eapply list_elem_of_lookup_2|].
    destruct (hybrid_rtdev_fields cfg d ssd) as (_ & _ & ? & ?). done.
  - intros rt Hin. apply hybrid_flat_elem in Hin as (d & ssd & _ & Hssd & ->).
    exists ssd. split; [done|].
    destruct (hybrid_rtdev_fields cfg d ssd) as (_ & _ & ? & ?). done.
Qed.

Lemma X11_hybrid_uses_every_ssd_witness :
  ∃ r rt, GetRTDevices sample_disks (Some hybrid_config) = Returned r ∧
          rt ∈ RTResult.rtDevices r ∧
          RTDevice.Journal rt = "nvme-N1" ∧ RTDevice.Metadata rt = "nvme-N1,0xff".
Proof.
  destruct (X11_hybrid_uses_every_ssd sample_disks hybrid_config
              eq_refl eq_refl ltac:(vm_compute; lia) ltac:(vm_compute; lia))
    as (r & Hrun & Hall & _).
  destruct (Hall (disk "nvme1n1" "/dev/disk/by-id/nvme-N1" false))
    as (rt & Hin & Hj & Hm).
  { vm_compute. apply list_elem_of_further, list_elem_of_here. }
  exists r, rt. split; [exact Hrun|]. split; [exact Hin|].
  split; [exact Hj|exact Hm].
Defined.

(** X12. Under the hybrid policy, when it succeeds, the group sizes are
    known exactly: with h eligible rotational and s eligible solid-state
    disks, each of the first h mod s groups has h / s + 1 members and each
    of the others h / s, so that all groups are equal when s divides h;
    the assignments are emitted group by group. *)
Theorem X12_hybrid_group_sizes (nodeDisks : list LocalDisk.t) (cfg : StoreConfig.t)
    (a : nat) (g : list LocalDisk.t) :
  let ssds := List.filter eligible_ssd nodeDisks in
  let hdds := List.filter eligible_hdd nodeDisks in
  let groups := divide_loop (length ssds) [] hdds in
  StoreConfig.UseAllSSD cfg = false →
  StoreConfig.UseMetadataOffload cfg = true →
  1 ≤ length ssds →
  length ssds ≤ length hdds →
  groups !! a = Some g →
  GetRTDevices nodeDisks (Some cfg) =
    Returned (RTResult.mk (hybrid_flat cfg ssds 0 groups) None []) ∧
  length g =
    length hdds / length ssds +
    (if a <? length hdds mod length ssds then 1 else 0) ∧
  1 ≤ length g ∧
  (length hdds mod length ssds = 0 → length g = length hdds / length ssds).
Proof.
  intros ssds hdds groups Hall Hoff Hs Hh Hg.
  split; [by apply GetRTDevices_hybrid|].
  pose proof (divide_loop_size _ _ _ _ Hg) as Hsize.
  pose proof (Nat.div_le_lower_bound (length hdds) (length ssds) 1
                ltac:(lia) ltac:(lia)) as Hq.
  split; [done|]. split; [lia|].
  intros Hz. rewrite Hz in Hsize. simpl in Hsize. lia.
Qed.

Lemma X12_hybrid_group_sizes_witness :
  let groups :=
    divide_loop (length (List.filter eligible_ssd sample_disks)) []
      (List.filter eligible_hdd sample_disks) in
  groups !! 0 = Some [disk "sda" "/dev/disk/by-id/wwn-0x5000a /dev/disk/by-id/ata-A" true;
                      disk "sdb" "/dev/disk/by-id/ata-B" true] ∧
  length [disk "sda" "/dev/disk/by-id/wwn-0x5000a /dev/disk/by-id/ata-A" true;
          disk "sdb" "/dev/disk/by-id/ata-B" true] = 3 / 2 + 1.
Proof.
  intros groups.
  assert (Hg : groups !! 0 =
               Some [disk "sda" "/dev/disk/by-id/wwn-0x5000a /dev/disk/by-id/ata-A" true;
                     disk "sdb" "/dev/disk/by-id/ata-B" true])
    by (vm_compute; reflexivity).
  split; [exact Hg|].
  exact (proj1 (proj2 (X12_hybrid_group_sizes sample_disks hybrid_config 0 _
                         eq_refl eq_refl ltac:(vm_compute; lia) ltac:(vm_compute; lia) Hg))).
Defined.

Lemma layout_device_paths cfg ssds hdds :
  ∃ l, (l = ssds ∨ l = hdds ∨ l = []) ∧
       RTDevice.Device <$> RTResult.rtDevices (layout cfg ssds hdds) =
       (λ d, "/dev/" +:+ LocalDisk.Name d) <$> l.
Proof.
  unfold layout, empty_result.
  destruct (StoreConfig.UseAllSSD cfg).
  { destruct (length ssds =? 0); [exists []; auto|].
    exists ssds. split; [auto|]. simpl.
    rewrite <- list_fmap_compose. apply list_fmap_ext. intros _ d _.
    apply plain_rtdev_fields. }
  destruct (length hdds =? 0); [exists []; auto|].
  destruct (StoreConfig.UseMetadataOffload cfg); simpl negb; cbv iota.
  2:{ exists hdds. split; [auto|]. simpl.
      rewrite <- list_fmap_compose. apply list_fmap_ext. intros _ d _.
      apply plain_rtdev_fields. }
  destruct (Nat.ltb_spec (length hdds) (length ssds)); [exists []; auto|].
  destruct (Nat.eqb_spec (length ssds) 0); [exists []; auto|].
  exists hdds. split; [auto|]. simpl.
  rewrite <- (divide_loop_concat (length ssds) hdds) at 2 by lia.
  apply hybrid_flat_fmap; [|rewrite divide_loop_length; lia].
  intros d ssd. apply hybrid_rtdev_fields.
Qed.

Lemma NoDup_fmap_filter {A B} (f : A → B) (p : A → bool) l :
  NoDup (f <$> l) → NoDup (f <$> List.filter p l).
Proof.
  induction l as [|x l IH]; [done|]. csimpl. intros Hnd.
  apply NoDup_cons in Hnd as [Hx Hnd]. destruct (p x); [|by apply IH].
  csimpl. apply NoDup_cons. split; [|by apply IH].
  intros Hin. apply Hx. apply list_elem_of_fmap in Hin as (y & -> & Hy).
  apply list_elem_of_fmap. exists y. split; [done|].
  apply list_elem_of_In. apply list_elem_of_In, List.filter_In in Hy. tauto.
Qed.

(** X20. No device is handed out twice: when the disks of the input
    have pairwise different kernel names, the device paths of the
    assignments [GetRTDevices] returns are pairwise different, under every
    policy. *)
Theorem X20_device_paths_distinct (nodeDisks : list LocalDisk.t) (cfg : StoreConfig.t) :
  NoDup (LocalDisk.Name <$> nodeDisks) →
  ∃ r, GetRTDevices nodeDisks (Some cfg) = Returned r ∧
       NoDup (RTDevice.Device <$> RTResult.rtDevices r).
Proof.
  intros Hnd. rewrite GetRTDevices_layout. eexists. split; [done|].
  destruct (length nodeDisks =? 0); [apply NoDup_nil_2|].
  destruct (layout_device_paths cfg (List.filter eligible_ssd nodeDisks)
              (List.filter eligible_hdd nodeDisks)) as (l & Hl & ->).
  change (λ d, "/dev/" +:+ LocalDisk.Name d)
    with (String.append "/dev/" ∘ LocalDisk.Name).
  rewrite list_fmap_compose. apply NoDup_fmap_2; [apply String.app_inj|].
  destruct Hl as [->|[->| ->]]; [by apply NoDup_fmap_filter..|apply NoDup_nil_2].
Qed.

Lemma X20_device_paths_distinct_witness :
  ∃ r, GetRTDevices sample_disks (Some hybrid_config) = Returned r ∧
       NoDup (RTDevice.Device <$> RTResult.rtDevices r).
Proof.
  apply X20_device_paths_distinct.
  apply (bool_decide_unpack _). vm_compute. exact I.
Defined.

(** ** More on name normalization *)

Lemma has_byte_app c s t : has_byte c (s +:+ t) = has_byte c s || has_byte c t.
Proof.
  induction s as [|a s IH]; [done|].
  rewrite append_cons. simpl. by rewrite IH, orb_assoc.
Qed.

Lemma occurs_in_byte c s : occurs_in (String c "") s ↔ has_byte c s = true.
Proof.
  split.
  - intros (a & b & ->). rewrite !has_byte_app. simpl.
    rewrite bool_decide_true by done. by rewrite orb_true_r.
  - induction s as [|a s IH]; [done|]. simpl. intros Hs.
    apply orb_true_iff in Hs as [Ha|Hs].
    + apply bool_decide_eq_true in Ha as ->. by exists "", s.
    + destruct (IH Hs) as (x & y & ->). by exists (String a x), y.
Qed.

Lemma has_byte_take c n s : has_byte c (str_take n s) = true → has_byte c s = true.
Proof.
  revert s. induction n as [|n IH]; intros [|a s]; simpl; try done.
  intros H. apply orb_true_iff in H as [->|H]; [done|].
  rewrite (IH _ H). apply orb_true_r.
Qed.

Lemma has_byte_drop c n s : has_byte c (str_drop n s) = true → has_byte c s = true.
Proof.
  revert s. induction n as [|n IH]; intros [|a s]; simpl; try done.
  intros H. rewrite (IH _ H). apply orb_true_r.
Qed.

(** Removing occurrences of a pattern brings in no new byte. *)
Lemma has_byte_Replace_empty c x old n :
  has_byte c (strings.Replace x old "" n) = true → has_byte c x = true.
Proof.
  revert x. induction n as [|n IH]; intros x; [done|].
  cbn [strings.Replace]. destruct (strings.Index x old) as [m|]; [|done].
  rewrite append_nil by done. rewrite has_byte_app. intros H.
  apply orb_true_iff in H as [H|H].
  - by eapply has_byte_take.
  - apply IH in H. by eapply has_byte_drop.
Qed.

Lemma occurs_in_empty sub : sub ≠ "" → ¬ occurs_in sub "".
Proof.
  intros Hsub (a & b & Hab). symmetry in Hab.
  apply append_empty_inv in Hab as [_ Hab].
  apply append_empty_inv in Hab as [Hab _]. done.
Qed.

Lemma getIdDevLinkName_free (dls : string) :
  ¬ occurs_in "/" (getIdDevLinkName dls) ∧
  ¬ occurs_in "wwn-" (getIdDevLinkName dls) ∧
  ¬ occurs_in " " (getIdDevLinkName dls).
Proof.
  unfold getIdDevLinkName.
  destruct (getIdDevLinkName_loop_spec (strings.Split dls " "))
    as [(k & c & Hk & Hc & _ & ->)|[_ ->]].
  2:{ repeat split; by apply occurs_in_empty. }
  unfold skipped in Hc. split; [tauto|]. split; [tauto|].
  apply list_elem_of_lookup_2, list_elem_of_fmap in Hk as (piece & -> & Hpiece).
  destruct (Split_join dls " " ltac:(done)) as [_ Hfree].
  intros Hsp. apply (Hfree piece Hpiece).
  apply occurs_in_byte. apply occurs_in_byte in Hsp.
  by eapply has_byte_Replace_empty.
Qed.

(** A name with no space, no path separator and no [wwn-] is returned as
    it is. *)
Lemma getIdDevLinkName_clean (name : string) :
  ¬ occurs_in " " name → ¬ occurs_in "/" name → ¬ occurs_in "wwn-" name →
  getIdDevLinkName name = name.
Proof.
  intros Hsp Hsl Hw. unfold getIdDevLinkName.
  assert (Hsplit : strings.Split name " " = [name]).
  { unfold strings.Split. destruct (String.length name); [done|].
    cbn [strings.genSplit].
    destruct (strings.Index name " ") as [m|] eqn:Hm; [|done].
    apply Index_Some in Hm as (a & b & _ & ->). destruct Hsp. by exists a, b. }
  rewrite Hsplit. cbn [getIdDevLinkName_loop strings.Replace].
  destruct (strings.Index name "/dev/disk/by-id/") as [m|] eqn:Hm.
  { apply Index_Some in Hm as (a & b & _ & ->). destruct Hsl.
    exists (a +:+ "/dev/disk"), ("by-id/" +:+ b). by rewrite !append_assoc. }
  apply Contains_spec_false in Hsl, Hw. by rewrite Hsl, Hw.
Qed.

(** X13. Whatever the link string, the normalized name holds no path
    separator, no [wwn-] and no space. *)
Theorem X13_normalized_name_is_clean (dls : string) :
  ¬ occurs_in "/" (getIdDevLinkName dls) ∧
  ¬ occurs_in "wwn-" (getIdDevLinkName dls) ∧
  ¬ occurs_in " " (getIdDevLinkName dls).
Proof. apply getIdDevLinkName_free. Qed.

(** X14. Name normalization is idempotent: normalizing a normalized name
    gives it back. *)
Theorem X14_normalization_idempotent (dls : string) :
  getIdDevLinkName (getIdDevLinkName dls) = getIdDevLinkName dls.
Proof.
  destruct (getIdDevLinkName_free dls) as (Hsl & Hw & Hsp).
  by apply getIdDevLinkName_clean.
Qed.

(** X15. For a name with no space, no path separator and no [wwn-] in
    it, name normalization returns the name both for the bare name and for
    its link ["/dev/disk/by-id/"] followed by the name. *)
Theorem X15_single_link (name : string) :
  ¬ occurs_in " " name → ¬ occurs_in "/" name → ¬ occurs_in "wwn-" name →
  getIdDevLinkName name = name ∧
  getIdDevLinkName ("/dev/disk/by-id/" +:+ name) = name.
Proof.
  intros Hsp Hsl Hw. split; [by apply getIdDevLinkName_clean|].
  unfold getIdDevLinkName.
  set (dls := "/dev/disk/by-id/" +:+ name).
  assert (Hnosp : strings.Index dls " " = None).
  { destruct (strings.Index dls " ") as [m|] eqn:Hm; [|done].
    apply Index_Some in Hm as (a & b & _ & Hab).
    assert (Hb : has_byte " " dls = true) by (apply occurs_in_byte; by exists a, b).
    unfold dls in Hb. rewrite has_byte_app in Hb.
    apply orb_true_iff in Hb as [Hb|Hb]; [done|].
    destruct Hsp. by apply occurs_in_byte. }
  assert (Hsplit : strings.Split dls " " = [dls]).
  { unfold strings.Split. destruct (String.length dls); [done|].
    cbn [strings.genSplit]. by rewrite Hnosp. }
  rewrite Hsplit. cbn [getIdDevLinkName_loop strings.Replace].
  assert (Hidx : strings.Index dls "/dev/disk/by-id/" = Some 0).
  { rewrite Index_unfold.
    assert (strings.HasPrefix dls "/dev/disk/by-id/" = true) as ->
      by (apply HasPrefix_spec; by exists name).
    done. }
  rewrite Hidx. rewrite !append_nil.
  change (0 + String.length "/dev/disk/by-id/") with (String.length "/dev/disk/by-id/").
  unfold dls. rewrite str_drop_app.
  apply Contains_spec_false in Hsl, Hw. by rewrite Hsl, Hw.
Qed.

Lemma X15_single_link_witness :
  getIdDevLinkName "ata-ST4000" = "ata-ST4000" ∧
  getIdDevLinkName ("/dev/disk/by-id/" +:+ "ata-ST4000") = "ata-ST4000".
Proof.
  apply X15_single_link; apply Contains_spec_false; vm_compute; reflexivity.
Defined.

(** ** More on the directory planner *)

(** X16. [GetRtlfsDevices] treats each directory on its own: with a
    configuration, the result for two lists put end to end is the result
    for the first followed by the result for the second, and the paths come
    back in input order. *)
Theorem X16_rtlfs_append (dirs1 dirs2 : list Directory.t) (cfg : StoreConfig.t) :
  ∃ out1 out2,
    GetRtlfsDevices dirs1 (Some cfg) = Returned out1 ∧
    GetRtlfsDevices dirs2 (Some cfg) = Returned out2 ∧
    GetRtlfsDevices (dirs1 ++ dirs2) (Some cfg) = Returned (out1 ++ out2) ∧
    RtlfsDevice.Path <$> (out1 ++ out2) = Directory.Path <$> (dirs1 ++ dirs2).
Proof.
  unfold GetRtlfsDevices. rewrite !rtlfs_loop. eexists _, _.
  split; [done|]. split; [done|]. simpl. split.
  - by rewrite fmap_app.
  - rewrite <- fmap_app, <- list_fmap_compose. apply list_fmap_ext.
    intros _ dir _. apply rtlfs_device_fields.
Qed.

(** X17. Without a configuration [GetRtlfsDevices] returns the empty list
    for no directory and panics on the nil pointer as soon as there is
    one, whatever the directories are. *)
Theorem X17_rtlfs_missing_config (directories : list Directory.t) :
  GetRtlfsDevices directories None =
  match directories with
  | [] => Returned []
  | _ :: _ => Panicked "invalid memory address or nil pointer dereference"
  end.
Proof. by destruct directories. Qed.

Lemma lastElement_no_sep path :
  filepath.hasSeparator (filepath.lastElement path) = false.
Proof.
  induction path as [|a rest IH]; [done|]. simpl.
  destruct (filepath.hasSeparator rest) eqn:Hrest; [done|].
  destruct (filepath.IsPathSeparator a) eqn:Ha; [done|].
  simpl. by rewrite Ha, Hrest.
Qed.

Lemma Base_shape path :
  filepath.Base path ≠ "" ∧
  (filepath.hasSeparator (filepath.Base path) = true → filepath.Base path = "/").
Proof.
  unfold filepath.Base. case_bool_decide; [done|].
  case_bool_decide as He; [done|]. split; [done|].
  by rewrite lastElement_no_sep.
Qed.

(** X18. With a configuration, every assignment of [GetRtlfsDevices] has
    a non-empty name, and a name with a path separator in it can only be
    the single separator (the name of a path made of separators alone);
    the name of the empty path is a dot. *)
Theorem X18_rtlfs_names (directories : list Directory.t) (cfg : StoreConfig.t) :
  ∃ out,
    GetRtlfsDevices directories (Some cfg) = Returned out ∧
    (∀ dev, dev ∈ out →
       RtlfsDevice.Name dev ≠ "" ∧
       (filepath.hasSeparator (RtlfsDevice.Name dev) = true →
        RtlfsDevice.Name dev = "/") ∧
       (RtlfsDevice.Path dev = "" → RtlfsDevice.Name dev = ".")).
Proof.
  unfold GetRtlfsDevices. rewrite rtlfs_loop. eexists. split; [done|].
  intros dev Hdev. simpl in Hdev.
  apply list_elem_of_fmap in Hdev as (dir & -> & _).
  destruct (rtlfs_device_fields cfg dir) as (-> & -> & _).
  destruct (Base_shape (Directory.Path dir)) as [Hne Hsep].
  split; [done|]. split; [done|]. by intros ->.
Qed.

(** ** The headless service name *)






